(** * gort: host discovery and TCP connect scanning

    A shallow embedding of the Go packages [netUtil] (ports and their
    rendering) and [netUtil/pScan] (target construction, host-string
    expansion, port probing), followed by the properties established about
    them.

    Conventions.
    - Go integers are [Z]; fixed-width conversions are written out.
    - Go strings are byte strings, modelled by [string].
    - A nil slice or pointer is [None].
    - Functions that can panic or fail to finish return a [run] value.
    - Calls into the operating system, the resolver and the network are
      answered by an explicit environment record; the order in which
      concurrent units complete is a parameter. *)

From Stdlib Require Import ZArith List String Ascii Bool Lia Permutation.
From Stdlib Require Import DecimalString.
Import ListNotations.

Local Open Scope string_scope.
Local Open Scope Z_scope.

(* ================================================================== *)
(** ** Outcomes of running Go code *)

(** [Ret a]: normal return.  [Panic]: a run-time panic (index or slice
    bound out of range, nil dereference).  [Stuck]: the loop budget was
    used up before the code finished. *)
Inductive run (A : Type) : Type :=
| Ret (a : A)
| Panic
| Stuck.

Arguments Ret {A} a.
Arguments Panic {A}.
Arguments Stuck {A}.

Definition bind {A B : Type} (m : run A) (k : A -> run B) : run B :=
  match m with
  | Ret a => k a
  | Panic => Panic
  | Stuck => Stuck
  end.

Notation "x <- m ;; k" := (bind m (fun x => k))
  (at level 61, m at next level, right associativity).

Definition returns {A : Type} (m : run A) : bool :=
  match m with Ret _ => true | _ => false end.

(* ================================================================== *)
(** ** Package [strings], [strconv] and the [%d] verb of [fmt] *)

Definition len (s : string) : Z := Z.of_nat (String.length s).

(** [s[:hi]] on a string: panics unless [0 <= hi <= len(s)]. *)
Definition sliceTo (s : string) (hi : Z) : run string :=
  if (0 <=? hi) && (hi <=? len s)
  then Ret (substring 0 (Z.to_nat hi) s)
  else Panic.

Module strings.

(** [len(s) >= len(suffix) && s[len(s)-len(suffix):] == suffix] *)
Definition HasSuffix (s suffix : string) : bool :=
  (String.length suffix <=? String.length s)%nat
  && String.eqb
       (substring (String.length s - String.length suffix)
                  (String.length suffix) s)
       suffix.

Definition Contains (s substr : string) : bool :=
  match index 0 substr s with
  | Some _ => true
  | None => false
  end.

(** [strings.Split(s, sep)] for a one-byte separator: the pieces between
    the occurrences of [sep]; a string without [sep] is its only piece. *)
Fixpoint splitAcc (sep : ascii) (cur : string) (s : string) : list string :=
  match s with
  | EmptyString => [cur]
  | String c rest =>
      if Ascii.eqb c sep
      then cur :: splitAcc sep EmptyString rest
      else splitAcc sep (cur ++ String c EmptyString) rest
  end.

Definition Split (s : string) (sep : ascii) : list string :=
  splitAcc sep EmptyString s.

(** The last byte of a string, if it has one. *)
Fixpoint lastByte (s : string) : option ascii :=
  match s with
  | EmptyString => None
  | String c EmptyString => Some c
  | String _ rest => lastByte rest
  end.

End strings.

Module strconv.

Definition digitVal (c : ascii) : option Z :=
  let n := Z.of_N (N_of_ascii c) in
  if (48 <=? n) && (n <=? 57) then Some (n - 48) else None.

Fixpoint parseDigits (acc : Z) (s : string) : option Z :=
  match s with
  | EmptyString => Some acc
  | String c rest =>
      match digitVal c with
      | Some d => parseDigits (10 * acc + d) rest
      | None => None
      end
  end.

Definition unsignedDecimal (s : string) : option Z :=
  match s with
  | EmptyString => None
  | _ => parseDigits 0 s
  end.

(** [strconv.Atoi]: an optional sign and decimal digits; [None] is the
    error result (syntax, or a value outside [int]). *)
Definition Atoi (s : string) : option Z :=
  let v :=
    match s with
    | String "-"%char rest => option_map Z.opp (unsignedDecimal rest)
    | String "+"%char rest => unsignedDecimal rest
    | _ => unsignedDecimal s
    end in
  match v with
  | Some z => if (- 2 ^ 63 <=? z) && (z <? 2 ^ 63) then Some z else None
  | None => None
  end.

(** [strconv.Itoa], which is also what [%d] prints. *)
Definition Itoa (z : Z) : string := NilZero.string_of_int (Z.to_int z).

End strconv.

(* ================================================================== *)
(** ** Package [netUtil]: ports *)

Module netUtil.

(** [PortNo] is a [uint16]; [Ports] is a slice of pointers obtained from
    [NewPort], none of them nil. *)
Record Port : Type := mkPort { PortNo : Z; Protocol : string }.

Definition Ports : Type := list Port.

Definition NewPort (portNo : Z) (proto : string) : Port :=
  {| PortNo := portNo; Protocol := proto |}.

(** [fmt.Sprintf("%d/%s", p.PortNo, p.Protocol)] *)
Definition Port_String (p : Port) : string :=
  strconv.Itoa (PortNo p) ++ "/" ++ Protocol p.

Definition newline : string := String "010"%char EmptyString.

(** [i != 0 && i%10 == 0 && i+1 != len(ps)] *)
Definition lineBreakAt (i n : Z) : bool :=
  negb (i =? 0) && (Z.rem i 10 =? 0) && negb (i + 1 =? n).

(** The body of [for i, p := range ps] in [Ports.String] and in the
    short branch of [Ports.Preview]; [n] is [len(ps)] of the receiver. *)
Fixpoint joinLoop (n i : Z) (ps : list Port) (ret : string) : string :=
  match ps with
  | [] => ret
  | p :: rest =>
      let ret := ret ++ Port_String p ++ ", " in
      let ret := if lineBreakAt i n then ret ++ newline else ret in
      joinLoop n (i + 1) rest ret
  end.

Definition Ports_String (ps : Ports) : run string :=
  let ret := joinLoop (Z.of_nat (List.length ps)) 0 ps "" in
  sliceTo ret (len ret - 2).

(** The loop of the long branch of [Ports.Preview]: the line break comes
    before the port. *)
Fixpoint previewLoop (n i : Z) (ps : list Port) (ret : string) : string :=
  match ps with
  | [] => ret
  | p :: rest =>
      let ret := if lineBreakAt i n then ret ++ newline else ret in
      let ret := ret ++ Port_String p ++ ", " in
      previewLoop n (i + 1) rest ret
  end.

Definition maxPerLine : Z := 30.

Definition Ports_Preview (ps : Ports) : run string :=
  let n := Z.of_nat (List.length ps) in
  if n <? maxPerLine then
    let ret := joinLoop n 0 ps "" in
    sliceTo ret (len ret - 2)
  else
    let ret := previewLoop n 0 (firstn (Z.to_nat maxPerLine) ps) "" in
    ret' <- sliceTo ret (len ret - 2) ;;
    Ret (ret' ++ "...").

End netUtil.

(* ================================================================== *)
(** ** Package [pScan]: data *)

Module pScan.

Import netUtil.

(** [type TargetStatus int] and [type NetworkLocation int] share one
    [const] block, so [iota] keeps counting across the two groups. *)
Definition TargetStatus : Type := Z.
Definition NetworkLocation : Type := Z.

Definition Online : TargetStatus := 0 + 1.
Definition OfflineFiltered : TargetStatus := 1 + 1.
Definition Unknown : TargetStatus := 2 + 1.
Definition Local : NetworkLocation := 3 + 1.
Definition Global : NetworkLocation := 4 + 1.
Definition UnknownLoc : NetworkLocation := 5 + 1.

(** [net.IP] and [net.HardwareAddr] are byte slices: [None] is the nil
    slice, [Some bs] a slice holding the bytes [bs]. *)
Definition IP : Type := option (list Z).
Definition HardwareAddr : Type := option (list Z).

Record Target : Type := mkTarget {
  HostName : string;
  Vendor : string;
  IPAddr : IP;
  MACAddr : HardwareAddr;
  InitialTarget : string;
  Status : TargetStatus;
  Location : NetworkLocation;
  Ports : netUtil.Ports;
  Rtts : list Z
}.

Definition Targets : Type := list Target.

Definition setStatus (t : Target) (s : TargetStatus) : Target :=
  mkTarget (HostName t) (Vendor t) (IPAddr t) (MACAddr t) (InitialTarget t)
           s (Location t) (Ports t) (Rtts t).

Definition setHostName (t : Target) (h : string) : Target :=
  mkTarget h (Vendor t) (IPAddr t) (MACAddr t) (InitialTarget t)
           (Status t) (Location t) (Ports t) (Rtts t).

Definition setVendor (t : Target) (v : string) : Target :=
  mkTarget (HostName t) v (IPAddr t) (MACAddr t) (InitialTarget t)
           (Status t) (Location t) (Ports t) (Rtts t).

Definition setIPAddr (t : Target) (ip : IP) : Target :=
  mkTarget (HostName t) (Vendor t) ip (MACAddr t) (InitialTarget t)
           (Status t) (Location t) (Ports t) (Rtts t).

Definition setMACAddr (t : Target) (m : HardwareAddr) : Target :=
  mkTarget (HostName t) (Vendor t) (IPAddr t) m (InitialTarget t)
           (Status t) (Location t) (Ports t) (Rtts t).

Definition setLocation (t : Target) (l : NetworkLocation) : Target :=
  mkTarget (HostName t) (Vendor t) (IPAddr t) (MACAddr t) (InitialTarget t)
           (Status t) l (Ports t) (Rtts t).

Definition setRtts (t : Target) (r : list Z) : Target :=
  mkTarget (HostName t) (Vendor t) (IPAddr t) (MACAddr t) (InitialTarget t)
           (Status t) (Location t) (Ports t) r.

(** Modelled from the spec: the declaration of [PortResults] and its
    constructor [NewPortResults] are not among the sources.  Three
    sequences of ports, all empty at construction. *)
Record PortResults : Type := mkPortResults {
  Open : list Port;
  Closed : list Port;
  Filtered : list Port
}.

Definition NewPortResults : PortResults := mkPortResults [] [] [].

(** Modelled from the spec: the declaration of [ScanResult] and its
    constructor [NewScanResult] are not among the sources.  A target, a
    start and an end time, and the merged port results. *)
Record ScanResult : Type := mkScanResult {
  srTarget : Target;
  StartTime : Z;
  EndTime : Z;
  srPorts : PortResults
}.

Definition NewScanResult (t : Target) (start : Z) : ScanResult :=
  mkScanResult t start 0 NewPortResults.

(** Modelled from the spec: the declaration of [MultiScanResult] is not
    among the sources. *)
Record MultiScanResult : Type := mkMultiScanResult {
  Resolved : list ScanResult;
  Unresolved : list Target
}.

(** A non-nil [error]: whether its dynamic type is [*net.OpError], and
    the text [err.Error()]. *)
Record error : Type := mkError { isOpError : bool; Error : string }.

(** The two results of [net.DialTimeout]: a connection with a nil
    error, or a non-nil error. *)
Inductive dialed : Type :=
| Connected
| Failed (err : error).

(** The outcomes [net.DialTimeout] can give: package [net] returns its
    dial errors wrapped in a [*net.OpError], so the type assertion
    to [*net.OpError] in [scanPort] succeeds on each of them. *)
Definition receivable (d : dialed) : Prop :=
  match d with
  | Connected => True
  | Failed err => isOpError err = true
  end.

(** Durations are nanosecond counts, as in package [time]. *)
Definition Millisecond : Z := 1000000.
Definition Second : Z := 1000 * Millisecond.

(** What concurrent units do to the world outside their own variables,
    in the order they do it.  The governor appears through its events:
    [EvNewWeighted] with the capacity, [EvAcquire] and [EvRelease] with
    the weight.  When an [Acquire] is granted is up to the scheduler and
    is not part of the model. *)
Inductive event : Type :=
| EvNewWeighted (n : Z)
| EvAcquire (n : Z)
| EvRelease (n : Z)
| EvLookupAddr (addr : string)
| EvLookupIP (host : string)
| EvPing (addr : string) (count : Z) (privileged : bool)
| EvInterfaces
| EvArpCache (addr : string)
| EvArpRequest (ip : IP)
| EvLookupVendor (mac : HardwareAddr)
| EvGoAsyncNewTarget (t : string)
| EvSendTarget (h : Target)
| EvDial (network address : string) (timeout : Z)
| EvClose
| EvSleep (d : Z)
| EvGoScanPort (p : Port)
| EvSendPortResults (res : PortResults)
| EvGoScan (t : Target)
| EvSendScanResult (r : ScanResult).

(** Code with effects: the events so far, and how the code ended. *)
Definition M (A : Type) : Type := (list event * run A)%type.

Definition ret {A : Type} (a : A) : M A := ([], Ret a).

Definition emit (e : event) : M unit := ([e], Ret tt).

Definition emits (es : list event) : M unit := (es, Ret tt).

Definition lift {A : Type} (r : run A) : M A := ([], r).

Definition mbind {A B : Type} (m : M A) (k : A -> M B) : M B :=
  match snd m with
  | Ret a => ((fst m ++ fst (k a))%list, snd (k a))
  | Panic => (fst m, Panic)
  | Stuck => (fst m, Stuck)
  end.

Definition trace {A : Type} (m : M A) : list event := fst m.
Definition result {A : Type} (m : M A) : run A := snd m.

Notation "x <~ m ;; k" := (mbind m (fun x => k))
  (at level 61, m at next level, right associativity).
Notation "m ;;; k" := (mbind m (fun _ => k))
  (at level 61, right associativity).

(** [silent P m]: no event of the run [m] satisfies [P]. *)
Definition silent {C : Type} (P : event -> bool) (m : M C) : Prop :=
  existsb P (trace m) = false.

(** [xs[0]]: panics on an empty slice. *)
Definition index0 {A : Type} (xs : list A) : run A :=
  match xs with
  | x :: _ => Ret x
  | [] => Panic
  end.

(* ---------------------------------------------------------------- *)
(** *** The world outside the program *)

Inductive IsHostOutcome : Type :=
| IsHostError
| IsHostNo
| IsHostYes (hw : HardwareAddr).

(** How the search of [QueryMac] through the local interfaces ends. *)
Inductive ArpOutcome : Type :=
| InterfacesError
| NotOnLocalNet
| LocalDialFailed
| LocalDeadlineFailed
| LocalResolve (reply : option (list Z)).

Record Statistics : Type := mkStatistics {
  PacketsRecv : Z;
  statRtts : list Z
}.

(** Answers of the standard library, the operating system, the network
    and the packages [ulimit], [ping], [arp] and [macLookup].  An error
    result is [None]. *)
Record World : Type := mkWorld {
  GetUlimit : option Z;
  GOOS : string;
  now : Z;
  LookupAddr : string -> option (list string);
  LookupIP : string -> option (list IP);
  ParseIP : string -> IP;
  ipText : list Z -> string;
  NewPinger : string -> bool -> option Statistics;
  isHost : IP -> IsHostOutcome;
  arpCacheSearch : string -> string;
  ParseMAC : string -> option (list Z);
  arpProbe : IP -> ArpOutcome;
  LookupVendor : list Z -> option string;
  DialTimeout : string -> nat -> dialed
}.

(** The order in which units started together complete. *)
Record Schedule : Type := mkSchedule {
  completion : forall A : Type, list A -> list A
}.

Definition fifo : Schedule := mkSchedule (fun _ l => l).

Definition fair (s : Schedule) : Prop :=
  forall (A : Type) (l : list A), Permutation (completion s A l) l.

(** Modelled from the spec: package [helper] is not among the sources.
    [ValidateIPOrRange] recognises a literal IP or dash-range pattern,
    [StrRangeToArray] lists the inclusive integer range denoted by a
    dash, [IncIp] increments an address in place. *)
Record Helper : Type := mkHelper {
  ValidateIPOrRange : string -> bool;
  StrRangeToArray : string -> list Z;
  IncIp : Z -> Z
}.

(* ---------------------------------------------------------------- *)
(** *** Addresses as text *)

Definition dotted (a b c d : Z) : string :=
  (strconv.Itoa a ++ "." ++ strconv.Itoa b ++ "."
   ++ strconv.Itoa c ++ "." ++ strconv.Itoa d)%string.

(** [net.IP.String]: ["<nil>"] for an empty address, dotted decimal for
    an IPv4 address in its 4-byte or 16-byte form; the text of any other
    address is taken from the world. *)
Definition IP_String (w : World) (ip : IP) : string :=
  match ip with
  | None => "<nil>"
  | Some [] => "<nil>"
  | Some [a; b; c; d] => dotted a b c d
  | Some [0; 0; 0; 0; 0; 0; 0; 0; 0; 0; 255; 255; a; b; c; d] =>
      dotted a b c d
  | Some bs => ipText w bs
  end.

(** The conversion [string(b)] of a byte slice: the bytes themselves. *)
Definition bytesToString (ip : IP) : string :=
  match ip with
  | None => ""
  | Some bs =>
      string_of_list_ascii (map (fun b => ascii_of_N (Z.to_N b)) bs)
  end.

(** [macAddr.String() != "00:00:00:00:00:00"] *)
Definition isZeroMAC (mac : list Z) : bool :=
  (List.length mac =? 6)%nat && forallb (Z.eqb 0) mac.

(* ---------------------------------------------------------------- *)
(** *** The concurrency governor *)

(** The capacity handed to [semaphore.NewWeighted]; [int64(l)] is a
    conversion to a signed 64-bit integer. *)
Definition int64 (z : Z) : Z := (z + 2 ^ 63) mod 2 ^ 64 - 2 ^ 63.

Definition governorLimit (w : World) : Z :=
  match GetUlimit w with
  | None => 1024
  | Some l => int64 l
  end.

(* ---------------------------------------------------------------- *)
(** *** Target construction *)

Section Construction.

Variable h : Helper.
Variable w : World.

Definition Resolve (t : Target) : M Target :=
  if ValidateIPOrRange h (InitialTarget t) then
    emit (EvLookupAddr (InitialTarget t)) ;;;
    t <~ match LookupAddr w (InitialTarget t) with
         | None => ret (setHostName t "N/A")
         | Some hostNames =>
             n <~ lift (index0 hostNames) ;;
             ret (setHostName t n)
         end ;;
    ret (setIPAddr t (ParseIP w (InitialTarget t)))
  else
    emit (EvLookupIP (InitialTarget t)) ;;;
    match LookupIP w (InitialTarget t) with
    | Some ips =>
        ip <~ lift (index0 ips) ;;
        let t := setIPAddr t ip in
        emit (EvLookupAddr (bytesToString (IPAddr t))) ;;;
        match LookupAddr w (bytesToString (IPAddr t)) with
        | Some hostNames =>
            n <~ lift (index0 hostNames) ;;
            ret (setHostName t n)
        | None => ret (setHostName t (InitialTarget t))
        end
    | None => ret (setStatus (setIPAddr t None) OfflineFiltered)
    end.

(** [Ping] returns the statistics, or nil when no pinger could be
    made; it stores the round-trip times in the target. *)
Definition Ping (t : Target) (count : Z) (privileged : bool)
  : M (Target * option Statistics) :=
  let priv := privileged || String.eqb (GOOS w) "windows" in
  match NewPinger w (IP_String w (IPAddr t)) priv with
  | None => ret (setRtts t [], None)
  | Some stats =>
      emit (EvPing (IP_String w (IPAddr t)) count priv) ;;;
      ret (setRtts t (statRtts stats), Some stats)
  end.

(** The fallback of [QueryMac] when the ARP cache has no entry: the
    search through the local interfaces and the ARP request. *)
Definition activeArp (t : Target) : M Target :=
  emit EvInterfaces ;;;
  match arpProbe w (IPAddr t) with
  | InterfacesError => ret (setMACAddr (setLocation t UnknownLoc) None)
  | NotOnLocalNet => ret (setMACAddr (setLocation t Global) None)
  | LocalDialFailed => ret (setMACAddr (setLocation t Local) None)
  | LocalDeadlineFailed => ret (setMACAddr (setLocation t Local) None)
  | LocalResolve r =>
      emit (EvArpRequest (IPAddr t)) ;;;
      match r with
      | Some hw =>
          if isZeroMAC hw
          then ret (setMACAddr (setLocation t Local) None)
          else ret (setStatus (setMACAddr (setLocation t Local) (Some hw))
                              Online)
      | None => ret (setMACAddr (setLocation t Local) None)
      end
  end.

Definition QueryMac (t : Target) : M Target :=
  emit EvInterfaces ;;;
  match isHost w (IPAddr t) with
  | IsHostYes hw => ret (setMACAddr (setLocation t Local) hw)
  | _ =>
      emit (EvArpCache (IP_String w (IPAddr t))) ;;;
      match ParseMAC w (arpCacheSearch w (IP_String w (IPAddr t))) with
      | Some mac =>
          if negb (isZeroMAC mac)
          then ret (setMACAddr (setLocation t Local) (Some mac))
          else activeArp t
      | None => activeArp t
      end
  end.

Definition LookUpVendor (t : Target) : M Target :=
  match MACAddr t with
  | Some mac =>
      emit (EvLookupVendor (Some mac)) ;;;
      match LookupVendor w mac with
      | None => ret (setVendor t "N/A")
      | Some company => ret (setVendor t company)
      end
  | None => ret (setVendor t "N/A")
  end.

(** The body shared by [NewTarget] and [AsyncNewTarget].  The fields
    not named in the composite literal start at their zero values. *)
Definition construct (t : string) (ports : netUtil.Ports) (privileged : bool)
  : M Target :=
  let h0 := mkTarget "" "" None None t Unknown 0 ports [] in
  h1 <~ Resolve h0 ;;
  match IPAddr h1 with
  | Some _ =>
      r <~ Ping h1 3 privileged ;;
      match snd r with
      | None => lift Panic
      | Some stats =>
          let h2 := if PacketsRecv stats >? 0
                    then setStatus (fst r) Online else fst r in
          h3 <~ QueryMac h2 ;;
          LookUpVendor h3
      end
  | None => ret (setLocation (setMACAddr h1 None) UnknownLoc)
  end.

Definition NewTarget (t : string) (ports : netUtil.Ports) (privileged : bool)
  : M Target :=
  construct t ports privileged.

Definition AsyncNewTarget (t : string) (ports : netUtil.Ports) (privileged : bool)
  : M Target :=
  emit (EvAcquire 4) ;;;
  h1 <~ construct t ports privileged ;;
  emit (EvRelease 3) ;;;
  emit (EvSendTarget h1) ;;;
  ret h1.

End Construction.

(* ---------------------------------------------------------------- *)
(** *** IPv4 prefixes (package [net])

    The 4-byte address slices that [ParseCIDR], [Mask], [Contains] and
    [IncIp] work on are represented by their big-endian 32-bit value. *)

Record IPNet : Type := mkIPNet { netIP : Z; netMask : Z }.

(** [net.CIDRMask(ones, 32)] *)
Definition CIDRMask (ones : Z) : Z := Z.shiftl (Z.ones ones) (32 - ones).

(** [ip.Mask(mask)] *)
Definition Mask (ip mask : Z) : Z := Z.land ip mask.

(** [n.Contains(ip)] *)
Definition Contains (n : IPNet) (ip : Z) : bool :=
  Z.land (netIP n) (netMask n) =? Z.land ip (netMask n).

Definition ipv4Value (a b c d : Z) : Z :=
  Z.lor (Z.lor (Z.lor (Z.shiftl a 24) (Z.shiftl b 16)) (Z.shiftl c 8)) d.

Definition ipv4Byte (ip : Z) (i : Z) : Z :=
  Z.land (Z.shiftr ip (8 * (3 - i))) 255.

(** [ip.String()] on a 4-byte address. *)
Definition IPv4_String (ip : Z) : string :=
  dotted (ipv4Byte ip 0) (ipv4Byte ip 1) (ipv4Byte ip 2) (ipv4Byte ip 3).

(** One decimal field of an IPv4 address: digits only, no leading zero
    before another digit, at most 255. *)
Definition parseOctet (s : string) : option Z :=
  match s with
  | String "0"%char (String _ _) => None
  | _ =>
      match strconv.unsignedDecimal s with
      | Some v => if v <=? 255 then Some v else None
      | None => None
      end
  end.

Definition parseIPv4 (s : string) : option Z :=
  match strings.Split s "."%char with
  | [a; b; c; d] =>
      match parseOctet a, parseOctet b, parseOctet c, parseOctet d with
      | Some a, Some b, Some c, Some d => Some (ipv4Value a b c d)
      | _, _, _, _ => None
      end
  | _ => None
  end.

(** The text before and after the first ['/'] of [s]. *)
Fixpoint cutSlash (pre : string) (s : string) : option (string * string) :=
  match s with
  | EmptyString => None
  | String c rest =>
      if Ascii.eqb c "/"%char then Some (pre, rest)
      else cutSlash (pre ++ String c EmptyString)%string rest
  end.

(** [net.ParseCIDR] on IPv4 prefixes [a.b.c.d/n]; every other text,
    IPv6 prefixes included, is an error in this model. *)
Definition ParseCIDR (s : string) : option (Z * IPNet) :=
  match cutSlash "" s with
  | None => None
  | Some (addr, mask) =>
      match parseIPv4 addr, strconv.unsignedDecimal mask with
      | Some ip, Some n =>
          if n <=? 32
          then Some (ip, mkIPNet (Mask ip (CIDRMask n)) (CIDRMask n))
          else None
      | _, _ => None
      end
  end.

(** The [count] addresses from [first] upwards. *)
Definition addressesFrom (first : Z) (count : nat) : list Z :=
  map (fun i => first + Z.of_nat i) (seq 0 count).

(** The last address of the block of [ip] with prefix length [ones]. *)
Definition broadcast (ip ones : Z) : Z :=
  Z.lor (Mask ip (CIDRMask ones)) (Z.ones (32 - ones)).

(* ---------------------------------------------------------------- *)
(** *** Expansion of the host string *)

(** [octets[i] = append(octets[i], vs...)] on a [[4][]int]. *)
Definition appendOctet (octets : list (list Z)) (i : nat) (vs : list Z)
  : run (list (list Z)) :=
  match nth_error octets i with
  | Some o => Ret (firstn i octets ++ (o ++ vs) :: skipn (S i) octets)%list
  | None => Panic
  end.

Definition octetsToTargets (octets : list (list Z)) : list string :=
  flat_map (fun oc0 =>
    flat_map (fun oc1 =>
      flat_map (fun oc2 =>
        map (fun oc3 => dotted oc0 oc1 oc2 oc3)
            (nth 3 octets []))
        (nth 2 octets []))
      (nth 1 octets []))
    (nth 0 octets []).

Section Expansion.

Variable h : Helper.

(** [for ip := ip.Mask(ipNet.Mask); ipNet.Contains(ip); helper.IncIp(ip)]:
    one unit is started for every address the loop visits; the result
    lists the addresses visited. *)
Fixpoint cidrLoop (fuel : nat) (n : IPNet) (ip : Z) : M (list Z) :=
  match fuel with
  | O => lift Stuck
  | S fuel' =>
      if Contains n ip then
        emit (EvGoAsyncNewTarget (IPv4_String ip)) ;;;
        rest <~ cidrLoop fuel' n (IncIp h ip) ;;
        ret (ip :: rest)
      else ret []
  end.

Fixpoint fillOctets (i : nat) (addrParts : list string)
  (octets : list (list Z)) : run (list (list Z)) :=
  match addrParts with
  | [] => Ret octets
  | addrPart :: rest =>
      octets' <- (if strings.Contains addrPart "-"
                  then appendOctet octets i (StrRangeToArray h addrPart)
                  else
                    let p := match strconv.Atoi addrPart with
                             | Some v => v
                             | None => 0
                             end in
                    appendOctet octets i [p]) ;;
      fillOctets (S i) rest octets'
  end.

Definition spawnAll (ts : list string) : M (list string) :=
  emits (map EvGoAsyncNewTarget ts) ;;; ret ts.

(** One turn of [for _, hostArg := range hosts]: the addresses for
    which a unit is started, in the order they are started. *)
Definition expandHostArg (fuel : nat) (hostArg : string)
  : M (list string) :=
  match ParseCIDR hostArg with
  | Some (ip, ipNet) =>
      visited <~ cidrLoop fuel ipNet (Mask ip (netMask ipNet)) ;;
      ret (map IPv4_String visited)
  | None =>
      if ValidateIPOrRange h hostArg then
        if strings.Contains hostArg "-" then
          octets <~ lift (fillOctets 0 (strings.Split hostArg "."%char)
                                     [[]; []; []; []]) ;;
          spawnAll (octetsToTargets octets)
        else spawnAll [hostArg]
      else spawnAll [hostArg]
  end.

Fixpoint expandHosts (fuel : nat) (hosts : list string)
  : M (list string) :=
  match hosts with
  | [] => ret []
  | hostArg :: rest =>
      ts <~ expandHostArg fuel hostArg ;;
      ts' <~ expandHosts fuel rest ;;
      ret (ts ++ ts')%list
  end.

Variable w : World.
Variable sched : Schedule.

(** [tgtHosts = append(tgtHosts, <-out)], once per unit started. *)
Fixpoint collectTargets (ts : list string) (ports : netUtil.Ports)
  (privileged : bool) : M Targets :=
  match ts with
  | [] => ret []
  | t :: rest =>
      tgt <~ AsyncNewTarget h w t ports privileged ;;
      tgts <~ collectTargets rest ports privileged ;;
      ret (tgt :: tgts)
  end.

Definition ParseHostString (fuel : nat) (hostArgs : string)
  (ports : netUtil.Ports) (privileged : bool) : M Targets :=
  emit (EvNewWeighted (governorLimit w)) ;;;
  started <~ expandHosts fuel (strings.Split hostArgs ","%char) ;;
  collectTargets (completion sched _ started) ports privileged.

End Expansion.

(** Modelled from the spec: the bodies of the functions of package
    [helper].  A literal address or dash-range pattern has four
    dot-separated parts, each a number up to 255 or two such numbers
    joined by a dash; a dash denotes the inclusive integer range;
    incrementing an address steps to the next 32-bit value. *)
Definition validPart (s : string) : bool :=
  match map parseOctet (strings.Split s "-"%char) with
  | [Some _] => true
  | [Some _; Some _] => true
  | _ => false
  end.

Definition specValidateIPOrRange (s : string) : bool :=
  match strings.Split s "."%char with
  | [a; b; c; d] => validPart a && validPart b && validPart c && validPart d
  | _ => false
  end.

Definition specStrRangeToArray (s : string) : list Z :=
  match map strconv.Atoi (strings.Split s "-"%char) with
  | [Some lo; Some hi] =>
      map (fun k => lo + Z.of_nat k) (seq 0 (Z.to_nat (hi - lo + 1)))
  | _ => []
  end.

Definition specIncIp (ip : Z) : Z := (ip + 1) mod 2 ^ 32.

Definition specHelper : Helper :=
  mkHelper specValidateIPOrRange specStrRangeToArray specIncIp.

(* ---------------------------------------------------------------- *)
(** *** Port probes *)

Definition refusedWindows : string :=
  "No connection could be made because the target machine actively refused it.".
Definition refusedUnix : string := "connect: connection refused".
Definition ioTimeout : string := "i/o timeout".
Definition tooManyOpenFiles : string := "too many open files".

Definition isRefused (msg : string) : bool :=
  strings.HasSuffix msg refusedWindows || strings.HasSuffix msg refusedUnix.

(** What one call of [scanPort] leaves behind: the target with its
    status as written by the call, the local [res], whether [res] was
    sent on the channel, whether the probe was started again, and the
    events of the call in program order. *)
Record Probe : Type := mkProbe {
  prTarget : Target;
  prRes : PortResults;
  prSent : bool;
  prAgain : bool;
  prTrace : list event
}.

Definition timeOut : Z := 3000 * Millisecond.

Section Probing.

Variable w : World.

Definition dialAddress (t : Target) (p : Port) : string :=
  (IP_String w (IPAddr t) ++ ":" ++ strconv.Itoa (PortNo p))%string.

(** One call of [scanPort]; [d] is what [net.DialTimeout] returned. *)
Definition scanPort (t : Target) (p : Port) (d : dialed) : Probe :=
  let res := NewPortResults in
  let begin := [EvAcquire 1; EvDial "tcp" (dialAddress t p) timeOut] in
  match d with
  | Connected =>
      let t := setStatus t Online in
      let res := mkPortResults (Open res ++ [p]) (Closed res) (Filtered res) in
      mkProbe t res true false
              (begin ++ [EvSendPortResults res; EvRelease 1; EvClose])
  | Failed err =>
      if isOpError err then
        let t :=
          if (Status t =? Unknown) || (Status t =? OfflineFiltered) then
            if isRefused (Error err) then setStatus t Online
            else if strings.HasSuffix (Error err) ioTimeout
                    && (Status t =? Unknown)
                 then setStatus t OfflineFiltered
                 else t
          else t in
        let res :=
          if isRefused (Error err)
          then mkPortResults (Open res) (Closed res ++ [p]) (Filtered res)
          else res in
        let res :=
          if strings.HasSuffix (Error err) ioTimeout
          then mkPortResults (Open res) (Closed res) (Filtered res ++ [p])
          else res in
        if strings.HasSuffix (Error err) tooManyOpenFiles then
          mkProbe t res false true
                  (begin ++ [EvSleep timeOut; EvGoScanPort p; EvRelease 1])
        else
          mkProbe t res true false
                  (begin ++ [EvRelease 1; EvSendPortResults res])
      else
        mkProbe t res true false
                (begin ++ [EvRelease 1; EvSendPortResults res])
  end.

(** A probe together with the probes it starts in its place: the
    [k]-th connect attempt to an address is answered by
    [DialTimeout w address k]. *)
Fixpoint probe (fuel : nat) (attempt : nat) (t : Target) (p : Port)
  : M (Target * PortResults) :=
  match fuel with
  | O => lift Stuck
  | S fuel' =>
      let r := scanPort t p (DialTimeout w (dialAddress t p) attempt) in
      emits (prTrace r) ;;;
      if prAgain r
      then probe fuel' (S attempt) (prTarget r) p
      else ret (prTarget r, prRes r)
  end.

Definition merge (acc pI : PortResults) : PortResults :=
  mkPortResults (Open acc ++ Open pI) (Closed acc ++ Closed pI)
                (Filtered acc ++ Filtered pI).

(** The receiving loop [for range t.Ports] of [scan] and [Scan], with
    the probes taken in their order of completion. *)
Fixpoint collectPorts (fuel : nat) (t : Target) (ps : list Port)
  (acc : PortResults) : M (Target * PortResults) :=
  match ps with
  | [] => ret (t, acc)
  | p :: rest =>
      r <~ probe fuel 0 t p ;;
      collectPorts fuel (fst r) rest (merge acc (snd r))
  end.

Variable sched : Schedule.

Definition scanBody (fuel : nat) (t : Target) : M ScanResult :=
  let r := NewScanResult t (now w) in
  emits (map EvGoScanPort (Ports t)) ;;;
  done <~ collectPorts fuel t (completion sched _ (Ports t)) (srPorts r) ;;
  ret (mkScanResult (fst done) (StartTime r) (now w) (snd done)).

(** [(t *Target) Scan() *ScanResult] *)
Definition Target_Scan (fuel : nat) (t : Target) : M ScanResult :=
  emit (EvNewWeighted (governorLimit w)) ;;;
  scanBody fuel t.

(** [(t *Target) scan(out, lock)] *)
Definition Target_scan (fuel : nat) (t : Target) : M ScanResult :=
  r <~ scanBody fuel t ;;
  emit (EvSendScanResult r) ;;;
  ret r.

(** The first loop of [Targets.Scan]: the targets without an address
    are set aside, a scan is started for each of the others. *)
Fixpoint dispatch (ts : Targets) : list Target * list Target :=
  match ts with
  | [] => ([], [])
  | t :: rest =>
      let d := dispatch rest in
      match IPAddr t with
      | None => (t :: fst d, snd d)
      | Some _ => (fst d, t :: snd d)
      end
  end.

Fixpoint collectScans (fuel : nat) (ts : list Target)
  : M (list ScanResult) :=
  match ts with
  | [] => ret []
  | t :: rest =>
      r <~ Target_scan fuel t ;;
      rs <~ collectScans fuel rest ;;
      ret (r :: rs)
  end.

(** [(t Targets) Scan() MultiScanResult] *)
Definition Targets_Scan (fuel : nat) (ts : Targets) : M MultiScanResult :=
  emit (EvNewWeighted (governorLimit w)) ;;;
  let d := dispatch ts in
  emits (map EvGoScan (snd d)) ;;;
  resolved <~ collectScans fuel (completion sched _ (snd d)) ;;
  ret (mkMultiScanResult resolved (fst d)).

End Probing.

(** The capacities of the governors created in a run. *)
Fixpoint governors (tr : list event) : list Z :=
  match tr with
  | [] => []
  | EvNewWeighted n :: rest => n :: governors rest
  | _ :: rest => governors rest
  end.

(** The addresses for which a construction unit is started in a run. *)
Fixpoint started (tr : list event) : list string :=
  match tr with
  | [] => []
  | EvGoAsyncNewTarget t :: rest => t :: started rest
  | _ :: rest => started rest
  end.

Definition isProbing (e : event) : bool :=
  match e with
  | EvPing _ _ _ | EvInterfaces | EvArpCache _ | EvArpRequest _
  | EvLookupVendor _ => true
  | _ => false
  end.

Definition isNewWeighted (e : event) : bool :=
  match e with EvNewWeighted _ => true | _ => false end.

Definition isRelease (e : event) : bool :=
  match e with EvRelease _ => true | _ => false end.

Definition isSleep (e : event) : bool :=
  match e with EvSleep _ => true | _ => false end.

Definition isGoScanPort (e : event) : bool :=
  match e with EvGoScanPort _ => true | _ => false end.

Definition isSend (e : event) : bool :=
  match e with EvSendPortResults _ => true | _ => false end.

(** Some event satisfying [a] comes before some event satisfying [b]. *)
Fixpoint occursBefore (a b : event -> bool) (tr : list event) : bool :=
  match tr with
  | [] => false
  | e :: rest => (a e && existsb b rest) || occursBefore a b rest
  end.

Definition sends (tr : list event) : nat :=
  List.length (filter isSend tr).

Fixpoint sleeps (tr : list event) : list Z :=
  match tr with
  | [] => []
  | EvSleep d :: rest => d :: sleeps rest
  | _ :: rest => sleeps rest
  end.

(** The outcome that makes [scanPort] start the probe again. *)
Definition exhausted (d : dialed) : bool :=
  match d with
  | Connected => false
  | Failed err =>
      isOpError err && strings.HasSuffix (Error err) tooManyOpenFiles
  end.

(* ---------------------------------------------------------------- *)
(** *** A sample world *)

(** A host without name service, neighbours or listeners: every lookup
    fails, nothing answers, every connect attempt is answered by
    [dial]. *)
Definition sampleWorld (dial : string -> nat -> dialed) : World :=
  mkWorld (Some 4096) "linux" 0
          (fun _ => None) (fun _ => None) (fun _ => None)
          (fun _ => "") (fun _ _ => None) (fun _ => IsHostNo)
          (fun _ => "") (fun _ => None) (fun _ => NotOnLocalNet)
          (fun _ => None) dial.

Definition refusedError (opError : bool) : error :=
  mkError opError "dial tcp 10.0.0.1:80: connect: connection refused".
Definition timeoutError : error :=
  mkError true "dial tcp 10.0.0.1:80: i/o timeout".
Definition exhaustedError (opError : bool) : error :=
  mkError opError "dial tcp 10.0.0.1:80: socket: too many open files".

(** The first two connect attempts meet descriptor exhaustion. *)
Definition twiceExhausted : World :=
  sampleWorld (fun _ k => if (k <? 2)%nat
                          then Failed (exhaustedError true)
                          else Connected).

Definition sampleTarget : Target :=
  mkTarget "N/A" "N/A" (Some [10; 0; 0; 1]) None "10.0.0.1"
           Unknown Global [NewPort 80 "tcp"] [].

(** A resolver that knows one host: [example.com] has the address
    93.184.216.34, whose reverse name is [ptr.example.net.]; every other
    query is an error, as [net.LookupAddr] answers a text that is not an
    address. *)
Definition dnsWorld : World :=
  mkWorld (Some 4096) "linux" 0
          (fun addr => if String.eqb addr "93.184.216.34"
                       then Some ["ptr.example.net."] else None)
          (fun host => if String.eqb host "example.com"
                       then Some [Some [93; 184; 216; 34]] else None)
          (fun _ => None)
          (fun _ => "") (fun _ _ => None) (fun _ => IsHostNo)
          (fun _ => "") (fun _ => None) (fun _ => NotOnLocalNet)
          (fun _ => None) (fun _ _ => Connected).

(* ---------------------------------------------------------------- *)
(** *** Round-trip times and the text forms of a target *)

(** [(t Target) AvgRtt]: the sum starts at 1, the additions are on
    [int64] and the division truncates. *)
Definition AvgRtt (t : Target) : Z :=
  match Rtts t with
  | [] => -1
  | _ :: _ =>
      Z.quot (fold_left (fun avgNS rtt => int64 (avgNS + rtt)) (Rtts t) 1)
             (int64 (Z.of_nat (List.length (Rtts t))))
  end.

Definition TargetStatus_String (ts : TargetStatus) : string :=
  if ts =? Online then "ONLINE"
  else if ts =? OfflineFiltered then "OFFLINE / FILTERED"
  else if ts =? Unknown then "UNKNOWN"
  else "N/A".

Definition NetworkLocation_String (n : NetworkLocation) : string :=
  if n =? Local then "LOCAL"
  else if n =? Global then "GLOBAL"
  else if n =? UnknownLoc then "UNKNOWN"
  else "N/A".

(** The texts of package [time] and package [net] that the renderings
    print: [Duration.String] and [HardwareAddr.String]. *)
Record Texts : Type := mkTexts {
  durationText : Z -> string;
  macText : list Z -> string
}.

(** The functions of package [colorFmt], each taking a format and, for
    the one call that has it, a duration argument. *)
Record ColorFmt : Type := mkColorFmt {
  Swarnf : string -> option Z -> string;
  Sfatalf : string -> option Z -> string;
  Ssuccessf : string -> option Z -> string;
  Sopenf : string -> option Z -> string;
  Sclosedf : string -> option Z -> string;
  Sfilteredf : string -> option Z -> string;
  Sinfof : string -> option Z -> string
}.

(** The format shared by [String] and [ColorString], applied to its ten
    arguments. *)
Definition targetInfo (target ip hostname sent ping vendor mac location
                       status ports : string) : string :=
  ("~~~~~~~~~~~~~~~ TARGET INFO ~~~~~~~~~~~~~~~~~~~~~~" ++ netUtil.newline
   ++ "Target: " ++ target ++ " | IP: " ++ ip ++ " | Hostname: " ++ hostname
   ++ netUtil.newline
   ++ "Avg Ping [" ++ sent ++ " send]: " ++ ping ++ netUtil.newline
   ++ "Vendor: " ++ vendor ++ netUtil.newline
   ++ "MacAddress: " ++ mac ++ netUtil.newline
   ++ "Network Location: " ++ location ++ netUtil.newline
   ++ "Status: " ++ status ++ netUtil.newline
   ++ "Ports:" ++ netUtil.newline ++ ports ++ netUtil.newline
   ++ "~~~~~~~~~~~~~~~~~~~~~~~~~~~~~~~~~~~~~~~~~~~~~~~~~~")%string.

Section Rendering.

Variable x : Texts.
Variable c : ColorFmt.
Variable w : World.

(** [(t *Target) String]: the arguments of [fmt.Sprintf] are evaluated
    first, [t.Ports.Preview()] among them. *)
Definition Target_String (t : Target) : run string :=
  let mac := match MACAddr t with
             | None => "N/A"
             | Some m => macText x m
             end in
  preview <- netUtil.Ports_Preview (Ports t) ;;
  Ret (targetInfo (InitialTarget t) (IP_String w (IPAddr t)) (HostName t)
                  (strconv.Itoa (Z.of_nat (List.length (Rtts t))))
                  (durationText x (AvgRtt t))
                  (Vendor t) mac
                  (NetworkLocation_String (Location t))
                  (TargetStatus_String (Status t))
                  preview).

Definition TargetStatus_ColorString (ts : TargetStatus) : string :=
  if ts =? Online then Sopenf c "ONLINE" None
  else if ts =? OfflineFiltered then Sclosedf c "OFFLINE / FILTERED" None
  else if ts =? Unknown then Sfilteredf c "UNKNOWN" None
  else "N/A".

Definition NetworkLocation_ColorString (n : NetworkLocation) : string :=
  if n =? Local then Sinfof c "LOCAL" None
  else if n =? Global then Sinfof c "GLOBAL" None
  else if n =? UnknownLoc then Swarnf c "UNKNOWN" None
  else "N/A".

Definition isNil (a : option (list Z)) : bool :=
  match a with None => true | Some _ => false end.

(** [(t *Target) ColorString] *)
Definition Target_ColorString (t : Target) : run string :=
  let mac :=
    if isNil (MACAddr t) && (Location t =? Local)
       && String.eqb (GOOS w) "windows"
    then Swarnf c "N/A" None
    else if isNil (MACAddr t) && (Location t =? Local)
    then Sfatalf c "N/A" None
    else match MACAddr t with
         | None => Ssuccessf c "N/A" None
         | Some m => Ssuccessf c (macText x m) None
         end in
  let vendor :=
    if (Location t =? Local) && negb (String.eqb (Vendor t) "")
       && negb (String.eqb (Vendor t) "N/A")
    then Ssuccessf c (Vendor t) None
    else if Location t =? Local then Sfatalf c "N/A" None
    else if Location t =? Global then Ssuccessf c "N/A" None
    else "" in
  let avg := AvgRtt t in
  let ping := if avg >? 0 then Ssuccessf c "%v" (Some avg)
              else Sfatalf c "%v" (Some avg) in
  preview <- netUtil.Ports_Preview (Ports t) ;;
  Ret (targetInfo (InitialTarget t) (IP_String w (IPAddr t)) (HostName t)
                  (strconv.Itoa (Z.of_nat (List.length (Rtts t))))
                  ping vendor mac
                  (NetworkLocation_ColorString (Location t))
                  (TargetStatus_ColorString (Status t))
                  preview).

End Rendering.

(* ---------------------------------------------------------------- *)
(** *** Reading runs *)

Definition validStatus (s : TargetStatus) : Prop :=
  s = Online \/ s = OfflineFiltered \/ s = Unknown.

Definition validLocation (l : NetworkLocation) : Prop :=
  l = Local \/ l = Global \/ l = UnknownLoc.

(** How much a status says about the host: nothing, no answer, alive. *)
Definition evidence (s : TargetStatus) : Z :=
  if s =? Online then 2 else if s =? OfflineFiltered then 1 else 0.

(** The ports a result classifies, bucket after bucket. *)
Definition classified (r : PortResults) : list Port :=
  (Open r ++ Closed r ++ Filtered r)%list.

(** The weight acquired and not released in a run. *)
Fixpoint held (tr : list event) : Z :=
  match tr with
  | [] => 0
  | EvAcquire n :: rest => n + held rest
  | EvRelease n :: rest => held rest - n
  | _ :: rest => held rest
  end.

(** [subseq l m]: [l] is [m] with some elements left out. *)
Inductive subseq {A : Type} : list A -> list A -> Prop :=
| subseq_nil : subseq [] []
| subseq_skip (a : A) (l m : list A) : subseq l m -> subseq l (a :: m)
| subseq_keep (a : A) (l m : list A) : subseq l m -> subseq (a :: l) (a :: m).

(** Whether the byte [c] occurs in [s]. *)
Fixpoint hasByte (c : ascii) (s : string) : bool :=
  match s with
  | EmptyString => false
  | String b rest => Ascii.eqb b c || hasByte c rest
  end.

(** The text a run of the joining loop adds when no line break falls in
    it: every port followed by the separator. *)
Fixpoint separated (ps : list Port) : string :=
  match ps with
  | [] => ""
  | p :: rest => (Port_String p ++ ", " ++ separated rest)%string
  end.

Definition isWeight (e : event) : bool :=
  match e with EvAcquire _ | EvRelease _ => true | _ => false end.

(** A host on a local network: 192.168.1.7 answers echo requests, its
    MAC address is in the ARP cache and its vendor is known; nothing has
    a name. *)
Definition lanWorld : World :=
  mkWorld (Some 4096) "linux" 0
          (fun _ => None) (fun _ => None)
          (fun s => if String.eqb s "192.168.1.7"
                    then Some [192; 168; 1; 7] else None)
          (fun _ => "")
          (fun _ _ => Some (mkStatistics 3 [1000; 3000; 2000]))
          (fun _ => IsHostNo)
          (fun _ => "aa:bb:cc:00:11:22")
          (fun _ => Some [170; 187; 204; 0; 17; 34])
          (fun _ => NotOnLocalNet)
          (fun _ => Some "Acme")
          (fun _ _ => Failed (refusedError true)).

End pScan.

(* ================================================================== *)
(** * Properties *)

(** ** Strings *)

Section StringFacts.

Lemma length_append (a b : string) :
  String.length (a ++ b) = (String.length a + String.length b)%nat.
Proof.
  induction a as [|c a IH]; simpl; [reflexivity | now rewrite IH].
Qed.

Lemma append_assoc (a b c : string) : (a ++ b) ++ c = a ++ (b ++ c).
Proof.
  induction a as [|x a IH]; simpl; [reflexivity | now rewrite IH].
Qed.

Lemma substring_prefix_append (a b : string) :
  substring 0 (String.length a) (a ++ b) = a.
Proof.
  induction a as [|c a IH]; simpl.
  - destruct b; reflexivity.
  - now rewrite IH.
Qed.

Lemma substring_skip_append (a b : string) :
  substring (String.length a) (String.length b) (a ++ b) = b.
Proof.
  induction a as [|c a IH]; simpl; [|exact IH].
  induction b as [|c b IHb]; simpl; [reflexivity | now rewrite IHb].
Qed.

(** Cutting the last [k] bytes off [a ++ b] when [b] has [k] bytes. *)
Lemma sliceTo_append (a b : string) :
  sliceTo (a ++ b) (len (a ++ b) - len b) = Ret a.
Proof.
  unfold sliceTo, len. rewrite length_append.
  replace (Z.of_nat (String.length a + String.length b)
           - Z.of_nat (String.length b))
    with (Z.of_nat (String.length a)) by lia.
  rewrite Nat2Z.id, substring_prefix_append.
  rewrite (proj2 (Z.leb_le _ _)) by lia.
  rewrite (proj2 (Z.leb_le _ _)) by lia.
  reflexivity.
Qed.

Lemma substring_all (s : string) : substring 0 (String.length s) s = s.
Proof.
  induction s as [|c s IH]; simpl; [reflexivity | now rewrite IH].
Qed.

Lemma substring_is_suffix (s : string) :
  forall n m : nat,
    (n + m = String.length s)%nat ->
    exists p, s = p ++ substring n m s.
Proof.
  induction s as [|c s IH]; intros n m Hnm.
  - exists "". simpl in Hnm. destruct n, m; try discriminate. reflexivity.
  - destruct n as [|n].
    + exists "". cbn [Nat.add] in Hnm. subst m.
      rewrite (substring_all (String c s)). reflexivity.
    + simpl in Hnm. destruct (IH n m) as [p Hp]; [lia|].
      exists (String c p). simpl. now rewrite <- Hp.
Qed.

Lemma HasSuffix_inv (s suffix : string) :
  strings.HasSuffix s suffix = true -> exists p, s = p ++ suffix.
Proof.
  unfold strings.HasSuffix. intros H.
  apply andb_true_iff in H. destruct H as [Hlen Heq].
  apply Nat.leb_le in Hlen. apply String.eqb_eq in Heq.
  destruct (substring_is_suffix s
              (String.length s - String.length suffix)
              (String.length suffix)) as [p Hp]; [lia|].
  exists p. now rewrite Heq in Hp.
Qed.

Lemma HasSuffix_append (p suffix : string) :
  strings.HasSuffix (p ++ suffix) suffix = true.
Proof.
  unfold strings.HasSuffix. rewrite length_append.
  apply andb_true_iff. split.
  - apply Nat.leb_le. lia.
  - replace (String.length p + String.length suffix - String.length suffix)%nat
      with (String.length p) by lia.
    rewrite substring_skip_append. apply String.eqb_refl.
Qed.

Lemma lastByte_append (p : string) (c : ascii) (r : string) :
  strings.lastByte (p ++ String c r) = strings.lastByte (String c r).
Proof.
  induction p as [|x p IH]; [reflexivity|].
  cbn [append]. rewrite <- IH.
  destruct (p ++ String c r) eqn:E; [|reflexivity].
  destruct p; discriminate E.
Qed.

(** Two non-empty suffixes of one string end in the same byte. *)
Lemma HasSuffix_same_lastByte (s a b : string) :
  a <> "" -> b <> "" ->
  strings.HasSuffix s a = true ->
  strings.HasSuffix s b = true ->
  strings.lastByte a = strings.lastByte b.
Proof.
  intros Ha Hb Hsa Hsb.
  destruct (HasSuffix_inv _ _ Hsa) as [p Hp].
  destruct (HasSuffix_inv _ _ Hsb) as [q Hq].
  destruct a as [|ca a]; [congruence|].
  destruct b as [|cb b]; [congruence|].
  rewrite <- (lastByte_append p ca a), <- (lastByte_append q cb b).
  congruence.
Qed.

End StringFacts.

(** ** Rendering of port lists *)

Section PortsRendering.

Import netUtil.

Lemma lineBreakAt_last (i : Z) : lineBreakAt i (i + 1) = false.
Proof.
  unfold lineBreakAt. rewrite Z.eqb_refl. simpl.
  now rewrite andb_false_r.
Qed.

(** After a non-empty run of the joining loop the text ends with the
    separator of the last port. *)
Lemma joinLoop_ends_with_separator (ps : list Port) :
  forall (n i : Z) (ret : string),
    ps <> [] ->
    i + Z.of_nat (List.length ps) = n ->
    exists r, joinLoop n i ps ret = r ++ ", ".
Proof.
  induction ps as [|p rest IH]; intros n i ret Hne Hlen; [congruence|].
  destruct rest as [|q rest'].
  - cbn [List.length] in Hlen. assert (Hn : n = i + 1) by lia. subst n.
    cbn [joinLoop]. rewrite lineBreakAt_last.
    exists (ret ++ Port_String p). symmetry. apply append_assoc.
  - cbn [joinLoop]. apply IH; [discriminate|].
    cbn [List.length] in *. lia.
Qed.

Lemma previewLoop_ends_with_separator (ps : list Port) :
  forall (n i : Z) (ret : string),
    ps <> [] ->
    exists r, previewLoop n i ps ret = r ++ ", ".
Proof.
  induction ps as [|p rest IH]; intros n i ret Hne; [congruence|].
  destruct rest as [|q rest'].
  - cbn [previewLoop]. destruct (lineBreakAt i n).
    + exists ((ret ++ newline) ++ Port_String p).
      symmetry. apply append_assoc.
    + exists (ret ++ Port_String p). symmetry. apply append_assoc.
  - cbn [previewLoop]. apply IH. discriminate.
Qed.

Lemma Ports_String_nonempty (ps : Ports) :
  ps <> [] -> returns (Ports_String ps) = true.
Proof.
  intros Hne. unfold Ports_String.
  destruct (joinLoop_ends_with_separator ps (Z.of_nat (List.length ps)) 0 ""
              Hne eq_refl) as [r ->].
  change 2 with (len ", ").
  now rewrite sliceTo_append.
Qed.

Lemma Ports_Preview_nonempty (ps : Ports) :
  ps <> [] -> returns (Ports_Preview ps) = true.
Proof.
  intros Hne. unfold Ports_Preview.
  destruct (Z.of_nat (List.length ps) <? maxPerLine) eqn:E.
  - destruct (joinLoop_ends_with_separator ps (Z.of_nat (List.length ps)) 0 ""
                Hne eq_refl) as [r ->].
    change 2 with (len ", ").
    now rewrite sliceTo_append.
  - assert (Hf : firstn (Z.to_nat maxPerLine) ps <> []).
    { destruct ps; [congruence|]. discriminate. }
    destruct (previewLoop_ends_with_separator _
                (Z.of_nat (List.length ps)) 0 "" Hf) as [r ->].
    change 2 with (len ", ").
    now rewrite sliceTo_append.
Qed.

(** C10.  [Ports.String] and [Ports.Preview] panic on the empty port
    list, where both evaluate [ret[:len(ret)-2]] with [ret] empty, that
    is with the bound [-2]; each of them returns normally only on
    non-empty lists, and on every non-empty list of non-nil ports. *)
Theorem Ports_render_panics_iff_empty :
  len "" - 2 = -2
  /\ Ports_String [] = Panic
  /\ Ports_Preview [] = Panic
  /\ forall ps : Ports,
       (returns (Ports_String ps) = true <-> ps <> [])
       /\ (returns (Ports_Preview ps) = true <-> ps <> []).
Proof.
  split; [reflexivity|].
  split; [reflexivity|].
  split; [reflexivity|].
  intros ps. split; split.
  - intros H ->. discriminate H.
  - apply Ports_String_nonempty.
  - intros H ->. discriminate H.
  - apply Ports_Preview_nonempty.
Qed.

End PortsRendering.

(** ** Code with effects *)

Section Effects.

Import pScan.

Local Open Scope list_scope.

Context {A B : Type}.

Lemma result_bind_Ret (m : M A) (k : A -> M B) (b : B) :
  result (x <~ m ;; k x) = Ret b ->
  exists a, result m = Ret a /\ result (k a) = Ret b.
Proof.
  unfold result, mbind. destruct (snd m) as [a| |]; cbn; intros H;
    try discriminate H.
  exists a. split; [reflexivity | exact H].
Qed.

Lemma trace_bind_Ret (m : M A) (k : A -> M B) (a : A) :
  result m = Ret a ->
  trace (x <~ m ;; k x) = trace m ++ trace (k a).
Proof.
  unfold result, trace, mbind. intros ->. reflexivity.
Qed.

Lemma bind_Ret (m : M A) (k : A -> M B) (a : A) :
  result m = Ret a ->
  (x <~ m ;; k x) = (trace m ++ trace (k a), result (k a)).
Proof.
  unfold result, trace, mbind. intros ->. reflexivity.
Qed.

Lemma silent_bind (P : event -> bool) (m : M A) (k : A -> M B) :
  silent P m -> (forall a, silent P (k a)) -> silent P (x <~ m ;; k x).
Proof.
  unfold silent, trace, mbind. intros Hm Hk.
  destruct (snd m) as [a| |]; cbn [fst]; try exact Hm.
  rewrite existsb_app, Hm. apply Hk.
Qed.

Lemma silent_ret (P : event -> bool) (a : A) : silent P (ret a).
Proof. reflexivity. Qed.

Lemma silent_lift (P : event -> bool) (r : run A) : silent P (lift r).
Proof. reflexivity. Qed.

Lemma silent_emit (P : event -> bool) (e : event) :
  P e = false -> silent P (emit e).
Proof. unfold silent. cbn. now intros ->. Qed.

Lemma silent_emits (P : event -> bool) (es : list event) :
  existsb P es = false -> silent P (emits es).
Proof. unfold silent. cbn. trivial. Qed.

End Effects.

Lemma existsb_map_false {A : Type} (P : pScan.event -> bool)
      (f : A -> pScan.event) (l : list A) :
  (forall a, P (f a) = false) -> existsb P (map f l) = false.
Proof.
  intros H. induction l as [|a l IH]; [reflexivity|].
  cbn. now rewrite H, IH.
Qed.

Lemma governors_silent (tr : list pScan.event) :
  existsb pScan.isNewWeighted tr = false -> pScan.governors tr = [].
Proof.
  induction tr as [|e tr IH]; [reflexivity|].
  destruct e; cbn; try exact IH. discriminate.
Qed.

(** ** Port probes *)

Section PortProbes.

Import netUtil pScan.

Local Open Scope list_scope.

(** The four messages [scanPort] looks for end in four different
    bytes, so no error text ends in two of them. *)
Ltac suffix_clash :=
  match goal with
  | H1 : strings.HasSuffix ?s ?a = true,
    H2 : strings.HasSuffix ?s ?b = true |- _ =>
      let E := fresh "E" in
      assert (E : strings.lastByte a = strings.lastByte b)
        by (apply (HasSuffix_same_lastByte s a b);
            [cbv; discriminate | cbv; discriminate | exact H1 | exact H2]);
      cbv in E; discriminate E
  end.

Lemma refused_not_timeout (msg : string) :
  isRefused msg = true -> strings.HasSuffix msg ioTimeout = false.
Proof.
  unfold isRefused. intros H.
  destruct (strings.HasSuffix msg ioTimeout) eqn:Ht; [|reflexivity].
  apply orb_true_iff in H. destruct H as [H|H]; suffix_clash.
Qed.

Lemma exhausted_not_refused (msg : string) :
  strings.HasSuffix msg tooManyOpenFiles = true -> isRefused msg = false.
Proof.
  intros He. unfold isRefused.
  destruct (strings.HasSuffix msg refusedWindows) eqn:H1; [suffix_clash|].
  destruct (strings.HasSuffix msg refusedUnix) eqn:H2; [suffix_clash|].
  reflexivity.
Qed.

Lemma exhausted_not_timeout (msg : string) :
  strings.HasSuffix msg tooManyOpenFiles = true ->
  strings.HasSuffix msg ioTimeout = false.
Proof.
  intros He.
  destruct (strings.HasSuffix msg ioTimeout) eqn:Ht; [suffix_clash|].
  reflexivity.
Qed.

(** [scanPort] writes no field of the target but [Status]. *)
Lemma scanPort_writes_status_only (w : World) (t : Target) (p : Port)
      (d : dialed) :
  prTarget (scanPort w t p d) = setStatus t (Status (prTarget (scanPort w t p d))).
Proof.
  destruct t as [hn v ip mac it st loc ps rt].
  destruct d as [|err]; [reflexivity|].
  unfold scanPort. cbn [isOpError Status].
  destruct (isOpError err); [|reflexivity].
  destruct ((st =? Unknown) || (st =? OfflineFiltered));
    destruct (isRefused (Error err));
    destruct (strings.HasSuffix (Error err) ioTimeout);
    destruct (st =? Unknown);
    destruct (strings.HasSuffix (Error err) tooManyOpenFiles);
    reflexivity.
Qed.

Lemma scanPort_keeps_IPAddr (w : World) (t : Target) (p : Port)
      (d : dialed) :
  IPAddr (prTarget (scanPort w t p d)) = IPAddr t.
Proof.
  rewrite scanPort_writes_status_only. reflexivity.
Qed.

(** What a call of [scanPort] records in its [PortResults], for every
    error value: the texts are looked at under the type assertion
    only. *)
Lemma scanPort_res (w : World) (t : Target) (p : Port) (d : dialed) :
  prRes (scanPort w t p d) =
  match d with
  | Connected => mkPortResults [p] [] []
  | Failed err =>
      if isOpError err then
        if isRefused (Error err) then mkPortResults [] [p] []
        else if strings.HasSuffix (Error err) ioTimeout
             then mkPortResults [] [] [p]
             else mkPortResults [] [] []
      else mkPortResults [] [] []
  end.
Proof.
  destruct d as [|err]; [reflexivity|].
  unfold scanPort. destruct (isOpError err); [|reflexivity].
  destruct (isRefused (Error err)) eqn:Hr.
  - rewrite (refused_not_timeout _ Hr).
    destruct (strings.HasSuffix (Error err) tooManyOpenFiles); reflexivity.
  - destruct (strings.HasSuffix (Error err) ioTimeout);
      destruct (strings.HasSuffix (Error err) tooManyOpenFiles); reflexivity.
Qed.

(** C1.  The one connect outcome of a call of [scanPort] decides the
    classification the call records in its [PortResults]: a connection
    puts the port in [Open] alone; an error whose text ends with one of
    the two refusal messages puts it in [Closed] alone, never in [Open]
    or [Filtered]; an error whose text ends with "i/o timeout" puts it
    in [Filtered] alone; every other error leaves the three sequences
    empty. *)
Theorem scanPort_classification (w : World) (t : Target) (p : Port)
        (d : dialed) :
  receivable d ->
  prRes (scanPort w t p d) =
  match d with
  | Connected => mkPortResults [p] [] []
  | Failed err =>
      if isRefused (Error err) then mkPortResults [] [p] []
      else if strings.HasSuffix (Error err) ioTimeout
           then mkPortResults [] [] [p]
           else mkPortResults [] [] []
  end.
Proof.
  intros Hd. rewrite scanPort_res.
  destruct d as [|err]; [reflexivity|].
  cbn [receivable] in Hd. now rewrite Hd.
Qed.

Lemma scanPort_classification_witness :
  let w := sampleWorld (fun _ _ => Failed (refusedError true)) in
  let p := NewPort 80 "tcp" in
  receivable (Failed (refusedError true))
  /\ prRes (scanPort w sampleTarget p (Failed (refusedError true)))
     = mkPortResults [] [p] [].
Proof.
  cbv zeta. split; [reflexivity|].
  exact (scanPort_classification
           (sampleWorld (fun _ _ => Failed (refusedError true)))
           sampleTarget (NewPort 80 "tcp") (Failed (refusedError true))
           eq_refl).
Defined.

(** The status a call of [scanPort] leaves in the target, for every
    error value. *)
Lemma scanPort_status_written (w : World) (t : Target) (p : Port)
      (d : dialed) :
  Status (prTarget (scanPort w t p d)) =
  match d with
  | Connected => Online
  | Failed err =>
      if isOpError err && isRefused (Error err)
         && ((Status t =? Unknown) || (Status t =? OfflineFiltered))
      then Online
      else if isOpError err && strings.HasSuffix (Error err) ioTimeout
              && (Status t =? Unknown)
           then OfflineFiltered
           else Status t
  end.
Proof.
  destruct d as [|err]; [reflexivity|].
  unfold scanPort. destruct (isOpError err); [|reflexivity].
  cbn [andb].
  destruct (isRefused (Error err)) eqn:Hr.
  - rewrite (refused_not_timeout _ Hr). cbn [andb].
    destruct (Status t =? Unknown) eqn:Hu;
      destruct (Status t =? OfflineFiltered) eqn:Ho;
      destruct (strings.HasSuffix (Error err) tooManyOpenFiles);
      reflexivity.
  - cbn [andb].
    destruct (Status t =? Unknown) eqn:Hu;
      destruct (Status t =? OfflineFiltered) eqn:Ho;
      destruct (strings.HasSuffix (Error err) ioTimeout);
      destruct (strings.HasSuffix (Error err) tooManyOpenFiles);
      reflexivity.
Qed.

(** C2.  The status a call of [scanPort] leaves in the target is:
    [Online] after a connection, whatever the status was; [Online] after
    a refusal exactly when the status was [Unknown] or
    [OfflineFiltered]; [OfflineFiltered] after an "i/o timeout" exactly
    when the status was [Unknown]; the status it found after every other
    outcome.  No other field of the target is written. *)
Theorem scanPort_status (w : World) (t : Target) (p : Port) (d : dialed) :
  receivable d ->
  Status (prTarget (scanPort w t p d)) =
  match d with
  | Connected => Online
  | Failed err =>
      if isRefused (Error err)
         && ((Status t =? Unknown) || (Status t =? OfflineFiltered))
      then Online
      else if strings.HasSuffix (Error err) ioTimeout
              && (Status t =? Unknown)
           then OfflineFiltered
           else Status t
  end
  /\ prTarget (scanPort w t p d)
     = setStatus t (Status (prTarget (scanPort w t p d))).
Proof.
  intros Hd. split; [|apply scanPort_writes_status_only].
  rewrite scanPort_status_written.
  destruct d as [|err]; [reflexivity|].
  cbn [receivable] in Hd. now rewrite Hd.
Qed.

Lemma scanPort_status_witness :
  let w := sampleWorld (fun _ _ => Failed timeoutError) in
  let p := NewPort 80 "tcp" in
  receivable (Failed timeoutError)
  /\ Status sampleTarget = Unknown
  /\ Status (prTarget (scanPort w sampleTarget p (Failed timeoutError)))
     = OfflineFiltered.
Proof.
  cbv zeta. split; [reflexivity|]. split; [reflexivity|].
  exact (proj1 (scanPort_status
                  (sampleWorld (fun _ _ => Failed timeoutError))
                  sampleTarget (NewPort 80 "tcp") (Failed timeoutError)
                  eq_refl)).
Defined.

(** C7.  From the status [Unknown], the status updates of a refusal
    and of an "i/o timeout" leave the status [Online], whichever of the
    two is applied first; the refusal is an outcome of
    [net.DialTimeout], hence a [*net.OpError]. *)
Theorem refused_and_timeout_either_order (w : World) (t : Target)
        (p1 p2 : Port) (e1 e2 : error) :
  Status t = Unknown ->
  isOpError e1 = true ->
  isRefused (Error e1) = true ->
  strings.HasSuffix (Error e2) ioTimeout = true ->
  Status (prTarget (scanPort w (prTarget (scanPort w t p1 (Failed e1)))
                             p2 (Failed e2))) = Online
  /\ Status (prTarget (scanPort w (prTarget (scanPort w t p2 (Failed e2)))
                                p1 (Failed e1))) = Online.
Proof.
  intros Hu Hop Hr Ht.
  assert (Hr2 : isRefused (Error e2) = false).
  { destruct (isRefused (Error e2)) eqn:E; [|reflexivity].
    rewrite (refused_not_timeout _ E) in Ht. discriminate Ht. }
  pose proof (refused_not_timeout _ Hr) as Ht1.
  destruct t as [hn v ip mac it st loc ps rt]. cbn [Status] in Hu. subst st.
  unfold scanPort. cbn [isOpError Error Status setStatus].
  rewrite Hop, Hr, Ht1, Hr2, Ht. cbn [orb andb Z.eqb Unknown OfflineFiltered].
  split.
  - destruct (strings.HasSuffix (Error e1) tooManyOpenFiles);
      cbn [prTarget Status];
      destruct (isOpError e2); cbn;
      try destruct (strings.HasSuffix (Error e2) tooManyOpenFiles);
      reflexivity.
  - destruct (isOpError e2); cbn;
      try destruct (strings.HasSuffix (Error e2) tooManyOpenFiles);
      cbn; rewrite ?Hop, ?Hr, ?Ht1; cbn;
      destruct (strings.HasSuffix (Error e1) tooManyOpenFiles);
      reflexivity.
Qed.

Lemma refused_and_timeout_either_order_witness :
  let w := sampleWorld (fun _ _ => Connected) in
  let p1 := NewPort 80 "tcp" in
  let p2 := NewPort 81 "tcp" in
  Status (prTarget (scanPort w (prTarget (scanPort w sampleTarget p1
                                            (Failed (refusedError true))))
                             p2 (Failed timeoutError))) = Online
  /\ Status (prTarget (scanPort w (prTarget (scanPort w sampleTarget p2
                                               (Failed timeoutError)))
                                p1 (Failed (refusedError true)))) = Online.
Proof.
  cbv zeta.
  apply (refused_and_timeout_either_order
           (sampleWorld (fun _ _ => Connected)) sampleTarget
           (NewPort 80 "tcp") (NewPort 81 "tcp")
           (refusedError true) timeoutError);
    reflexivity.
Defined.

Lemma sleeps_app (a b : list event) :
  sleeps (a ++ b) = sleeps a ++ sleeps b.
Proof.
  induction a as [|e a IH]; [reflexivity|].
  destruct e; cbn [app sleeps]; rewrite IH; reflexivity.
Qed.

Lemma sends_app (a b : list event) : sends (a ++ b) = (sends a + sends b)%nat.
Proof.
  unfold sends. now rewrite filter_app, length_app.
Qed.

Lemma mbind_emits {A : Type} (es : list event) (k : M A) :
  (emits es ;;; k) = (es ++ trace k, result k).
Proof. reflexivity. Qed.

(** A call starts the probe again exactly on descriptor exhaustion. *)
Lemma prAgain_exhausted (w : World) (t : Target) (p : Port) (d : dialed) :
  prAgain (scanPort w t p d) = exhausted d.
Proof.
  destruct d as [|err]; [reflexivity|].
  unfold scanPort, exhausted. destruct (isOpError err); [|reflexivity].
  destruct (strings.HasSuffix (Error err) tooManyOpenFiles); reflexivity.
Qed.

(** The call that meets descriptor exhaustion: nothing is recorded,
    nothing is sent, the target is left as it was. *)
Lemma scanPort_exhausted (w : World) (t : Target) (p : Port) (d : dialed) :
  exhausted d = true ->
  scanPort w t p d =
  mkProbe t NewPortResults false true
          [EvAcquire 1; EvDial "tcp" (dialAddress w t p) timeOut;
           EvSleep timeOut; EvGoScanPort p; EvRelease 1].
Proof.
  destruct d as [|err]; [discriminate|].
  cbn [exhausted]. intros H. apply andb_true_iff in H. destruct H as [Hop He].
  unfold scanPort. rewrite Hop, He.
  rewrite (exhausted_not_refused _ He), (exhausted_not_timeout _ He).
  cbn [andb]. destruct ((Status t =? Unknown) || (Status t =? OfflineFiltered));
    reflexivity.
Qed.

(** A call that does not start the probe again sends exactly one
    result and does not sleep. *)
Lemma scanPort_final (w : World) (t : Target) (p : Port) (d : dialed) :
  prAgain (scanPort w t p d) = false ->
  prSent (scanPort w t p d) = true
  /\ sleeps (prTrace (scanPort w t p d)) = []
  /\ sends (prTrace (scanPort w t p d)) = 1%nat.
Proof.
  destruct d as [|err]; [intros _; repeat split|].
  unfold scanPort. destruct (isOpError err); [|intros _; repeat split].
  destruct (strings.HasSuffix (Error err) tooManyOpenFiles);
    [discriminate|].
  intros _. repeat split.
Qed.

Lemma probe_after_exhaustion (w : World) (t : Target) (p : Port) (n : nat) :
  forall a : nat,
    (forall k : nat, (a <= k < a + n)%nat ->
       exhausted (DialTimeout w (dialAddress w t p) k) = true) ->
    prAgain (scanPort w t p (DialTimeout w (dialAddress w t p) (a + n)))
    = false ->
    let last := scanPort w t p (DialTimeout w (dialAddress w t p) (a + n)) in
    result (probe w (S n) a t p) = Ret (prTarget last, prRes last)
    /\ sleeps (trace (probe w (S n) a t p)) = repeat timeOut n
    /\ sends (trace (probe w (S n) a t p)) = 1%nat.
Proof.
  induction n as [|n IH]; intros a Hex Hlast last.
  - subst last. rewrite Nat.add_0_r in *.
    destruct (scanPort_final w t p _ Hlast) as (_ & Hs & Hn).
    cbn [probe]. rewrite mbind_emits, Hlast.
    cbn [ret trace result fst snd]. rewrite app_nil_r.
    repeat split; assumption.
  - assert (Ha : exhausted (DialTimeout w (dialAddress w t p) a) = true)
      by (apply Hex; lia).
    remember (S n) as m eqn:Hm.
    cbn [probe]. rewrite (scanPort_exhausted w t p _ Ha).
    cbn [prTrace prAgain prTarget]. rewrite mbind_emits. subst m.
    destruct (IH (S a)) as (Hr & Hs & Hn).
    + intros k Hk. apply Hex. lia.
    + replace (S a + n)%nat with (a + S n)%nat by lia. exact Hlast.
    + replace (S a + n)%nat with (a + S n)%nat in Hr by lia.
      cbn [trace result fst snd] in *.
      split; [exact Hr|]. split.
      * rewrite sleeps_app, Hs. reflexivity.
      * rewrite sends_app, Hn. reflexivity.
Qed.

(** C3 (as the code has it).  A call of [scanPort] whose connect
    attempt fails with a [*net.OpError] ending in "too many open files"
    sleeps for the connect time-out of three seconds while it still
    holds its weight, then starts the same probe as a new unit, then
    releases weight 1, and sends nothing on the channel.  Nothing counts
    the attempts and the pause does not grow: after any number [n] of
    such failures in a row the probe has slept [n] times for three
    seconds and sends the one result of its next attempt. *)
Theorem exhaustion_pause_resubmit_release (w : World) (t : Target)
        (p : Port) (d : dialed) (n : nat) :
  exhausted d = true ->
  (forall k : nat, (k < n)%nat ->
     exhausted (DialTimeout w (dialAddress w t p) k) = true) ->
  exhausted (DialTimeout w (dialAddress w t p) n) = false ->
  timeOut = 3 * Second
  /\ prTrace (scanPort w t p d) =
     [EvAcquire 1; EvDial "tcp" (dialAddress w t p) timeOut;
      EvSleep timeOut; EvGoScanPort p; EvRelease 1]
  /\ prSent (scanPort w t p d) = false
  /\ prAgain (scanPort w t p d) = true
  /\ returns (result (probe w (S n) 0 t p)) = true
  /\ sleeps (trace (probe w (S n) 0 t p)) = repeat timeOut n
  /\ sends (trace (probe w (S n) 0 t p)) = 1%nat.
Proof.
  intros Hd Hex Hlast.
  split; [reflexivity|].
  rewrite (scanPort_exhausted w t p d Hd). cbn [prTrace prSent prAgain].
  do 3 (split; [reflexivity|]).
  destruct (probe_after_exhaustion w t p n 0%nat) as (Hr & Hs & Hn).
  - intros k Hk. apply Hex. lia.
  - rewrite prAgain_exhausted. exact Hlast.
  - cbn [Nat.add] in Hr. rewrite Hr. repeat split; assumption.
Qed.

Lemma exhaustion_pause_resubmit_release_witness :
  prTrace (scanPort twiceExhausted sampleTarget (NewPort 80 "tcp")
                    (Failed (exhaustedError true))) =
  [EvAcquire 1; EvDial "tcp" "10.0.0.1:80" (3 * Second);
   EvSleep (3 * Second); EvGoScanPort (NewPort 80 "tcp"); EvRelease 1]
  /\ sleeps (trace (probe twiceExhausted 3 0 sampleTarget (NewPort 80 "tcp")))
     = [3 * Second; 3 * Second]
  /\ sends (trace (probe twiceExhausted 3 0 sampleTarget (NewPort 80 "tcp")))
     = 1%nat.
Proof.
  destruct (exhaustion_pause_resubmit_release
              twiceExhausted sampleTarget (NewPort 80 "tcp")
              (Failed (exhaustedError true)) 2)
    as (_ & Htr & _ & _ & _ & Hs & Hn).
  - reflexivity.
  - intros k Hk. destruct k as [|[|k]]; [reflexivity | reflexivity | lia].
  - reflexivity.
  - split; [exact Htr|]. split; [exact Hs | exact Hn].
Defined.

(** C3 (as stated) fails on the order: the weight is released after the
    pause and after the probe is started again, not before the pause.
    It also fails for an error of another type than [*net.OpError] with
    the same text: that call sends its empty result and starts nothing. *)
Lemma exhaustion_release_not_before_pause :
  let p := NewPort 80 "tcp" in
  let held := scanPort twiceExhausted sampleTarget p
                       (Failed (exhaustedError true)) in
  let other := scanPort twiceExhausted sampleTarget p
                        (Failed (exhaustedError false)) in
  strings.HasSuffix (Error (exhaustedError true)) tooManyOpenFiles = true
  /\ prTrace held =
     [EvAcquire 1; EvDial "tcp" "10.0.0.1:80" timeOut;
      EvSleep timeOut; EvGoScanPort p; EvRelease 1]
  /\ occursBefore isRelease isSleep (prTrace held) = false
  /\ occursBefore isSleep isGoScanPort (prTrace held) = true
  /\ occursBefore isGoScanPort isRelease (prTrace held) = true
  /\ strings.HasSuffix (Error (exhaustedError false)) tooManyOpenFiles = true
  /\ prSent other = true
  /\ prAgain other = false.
Proof.
  cbv zeta. repeat split; reflexivity.
Qed.

End PortProbes.

(** ** Governors *)

Section Governors.

Import netUtil pScan.

Local Open Scope list_scope.

Ltac silence :=
  repeat first
    [ apply silent_ret
    | apply silent_lift
    | apply silent_emit; reflexivity
    | apply silent_emits; apply existsb_map_false; reflexivity
    | apply silent_bind; [|intros]
    | match goal with
      | |- silent _ (match ?x with _ => _ end) => destruct x
      end ].

Variable h : Helper.
Variable w : World.
Variable sched : Schedule.

Lemma Resolve_no_governor (t : Target) :
  silent isNewWeighted (Resolve h w t).
Proof. unfold Resolve. silence. Qed.

Lemma construct_no_governor (t : string) (ports : netUtil.Ports) (priv : bool) :
  silent isNewWeighted (construct h w t ports priv).
Proof.
  unfold construct. apply silent_bind; [apply Resolve_no_governor|].
  intros h1. unfold Ping, QueryMac, activeArp, LookUpVendor. silence.
Qed.

Lemma AsyncNewTarget_no_governor (t : string) (ports : netUtil.Ports) (priv : bool) :
  silent isNewWeighted (AsyncNewTarget h w t ports priv).
Proof.
  unfold AsyncNewTarget.
  apply silent_bind; [silence|]. intros _.
  apply silent_bind; [apply construct_no_governor|]. intros h1. silence.
Qed.

Lemma collectTargets_no_governor (ts : list string) (ports : netUtil.Ports)
      (priv : bool) :
  silent isNewWeighted (collectTargets h w ts ports priv).
Proof.
  induction ts as [|t ts IH]; cbn [collectTargets]; [silence|].
  apply silent_bind; [apply AsyncNewTarget_no_governor|]. intros tgt.
  apply silent_bind; [exact IH|]. intros. silence.
Qed.

Lemma cidrLoop_no_governor (fuel : nat) (n : IPNet) :
  forall ip, silent isNewWeighted (cidrLoop h fuel n ip).
Proof.
  induction fuel as [|fuel IH]; intros ip; cbn [cidrLoop]; [silence|].
  destruct (Contains n ip); [|silence].
  apply silent_bind; [silence|]. intros _.
  apply silent_bind; [apply IH|]. intros. silence.
Qed.

Lemma expandHostArg_no_governor (fuel : nat) (hostArg : string) :
  silent isNewWeighted (expandHostArg h fuel hostArg).
Proof.
  unfold expandHostArg, spawnAll.
  destruct (ParseCIDR hostArg) as [[ip ipNet]|].
  - apply silent_bind; [apply cidrLoop_no_governor|]. intros. silence.
  - silence.
Qed.

Lemma expandHosts_no_governor (fuel : nat) (hosts : list string) :
  silent isNewWeighted (expandHosts h fuel hosts).
Proof.
  induction hosts as [|a hosts IH]; cbn [expandHosts]; [silence|].
  apply silent_bind; [apply expandHostArg_no_governor|]. intros ts.
  apply silent_bind; [exact IH|]. intros. silence.
Qed.

Lemma scanPort_no_governor (t : Target) (p : Port) (d : dialed) :
  existsb isNewWeighted (prTrace (scanPort w t p d)) = false.
Proof.
  destruct d as [|err]; [reflexivity|].
  unfold scanPort. destruct (isOpError err); [|reflexivity].
  destruct (strings.HasSuffix (Error err) tooManyOpenFiles); reflexivity.
Qed.

Lemma probe_no_governor (fuel : nat) (p : Port) :
  forall (attempt : nat) (t : Target),
    silent isNewWeighted (probe w fuel attempt t p).
Proof.
  induction fuel as [|fuel IH]; intros attempt t; cbn [probe]; [silence|].
  apply silent_bind.
  - apply silent_emits. apply scanPort_no_governor.
  - intros _. destruct (prAgain _); [apply IH | silence].
Qed.

Lemma collectPorts_no_governor (fuel : nat) (ps : list Port) :
  forall (t : Target) (acc : PortResults),
    silent isNewWeighted (collectPorts w fuel t ps acc).
Proof.
  induction ps as [|p ps IH]; intros t acc; cbn [collectPorts]; [silence|].
  apply silent_bind; [apply probe_no_governor|]. intros r. apply IH.
Qed.

Lemma scanBody_no_governor (fuel : nat) (t : Target) :
  silent isNewWeighted (scanBody w sched fuel t).
Proof.
  unfold scanBody.
  apply silent_bind; [silence|]. intros _.
  apply silent_bind; [apply collectPorts_no_governor|]. intros. silence.
Qed.

Lemma collectScans_no_governor (fuel : nat) (ts : list Target) :
  silent isNewWeighted (collectScans w sched fuel ts).
Proof.
  induction ts as [|t ts IH]; cbn [collectScans]; [silence|].
  apply silent_bind.
  - unfold Target_scan.
    apply silent_bind; [apply scanBody_no_governor|]. intros. silence.
  - intros r. apply silent_bind; [exact IH|]. intros. silence.
Qed.

Lemma governors_first {C : Type} (n : Z) (m : M C) :
  silent isNewWeighted m ->
  governors (trace (emit (EvNewWeighted n) ;;; m)) = [n].
Proof.
  intros Hm. cbn. f_equal. apply governors_silent. exact Hm.
Qed.

(** C9.  [ParseHostString], [Targets.Scan] and [Target.Scan] each
    create one governor, however far the call gets, and its capacity is
    the limit returned by [ulimit.GetUlimit], or 1024 when that call
    returns an error.  The limit is taken to fit the [int64] that
    [semaphore.NewWeighted] expects. *)
Theorem governor_capacity (fuel : nat) (hostArgs : string) (ports : netUtil.Ports)
        (privileged : bool) (ts : Targets) (t : Target) :
  match GetUlimit w with
  | Some l => - 2 ^ 63 <= l < 2 ^ 63
  | None => True
  end ->
  let capacity := match GetUlimit w with Some l => l | None => 1024 end in
  governors (trace (ParseHostString h w sched fuel hostArgs ports privileged))
  = [capacity]
  /\ governors (trace (Targets_Scan w sched fuel ts)) = [capacity]
  /\ governors (trace (Target_Scan w sched fuel t)) = [capacity].
Proof.
  intros Hfit capacity.
  assert (Hcap : governorLimit w = capacity).
  { unfold governorLimit, capacity, int64.
    destruct (GetUlimit w) as [l|]; [|reflexivity].
    rewrite Z.mod_small; lia. }
  rewrite <- Hcap. split; [|split].
  - unfold ParseHostString. apply governors_first.
    apply silent_bind; [apply expandHosts_no_governor|]. intros.
    apply collectTargets_no_governor.
  - unfold Targets_Scan. apply governors_first.
    apply silent_bind; [silence|]. intros _.
    apply silent_bind; [apply collectScans_no_governor|]. intros. silence.
  - unfold Target_Scan. apply governors_first. apply scanBody_no_governor.
Qed.

End Governors.

Lemma governor_capacity_witness :
  let w := pScan.sampleWorld (fun _ _ => pScan.Connected) in
  pScan.governors
    (pScan.trace (pScan.ParseHostString pScan.specHelper w pScan.fifo 8
                    "10.0.0.0/30" [netUtil.NewPort 80 "tcp"] false))
  = [4096]
  /\ pScan.governors
       (pScan.trace (pScan.Targets_Scan w pScan.fifo 1 [pScan.sampleTarget]))
     = [4096]
  /\ pScan.governors
       (pScan.trace (pScan.Target_Scan w pScan.fifo 1 pScan.sampleTarget))
     = [4096].
Proof.
  cbv zeta.
  apply (governor_capacity pScan.specHelper
           (pScan.sampleWorld (fun _ _ => pScan.Connected)) pScan.fifo 8
           "10.0.0.0/30" [netUtil.NewPort 80 "tcp"] false
           [pScan.sampleTarget] pScan.sampleTarget).
  cbn. lia.
Defined.

(** ** Target construction *)

Section Construction.

Import netUtil pScan.

Local Open Scope list_scope.

Variable h : Helper.
Variable w : World.

Ltac silence :=
  repeat first
    [ apply silent_ret
    | apply silent_lift
    | apply silent_emit; reflexivity
    | apply silent_bind; [|intros]
    | match goal with
      | |- silent _ (match ?x with _ => _ end) => destruct x
      end ].

(** Name resolution sends no echo request, asks no interface or ARP
    table and looks up no vendor. *)
Lemma Resolve_no_probing (t : Target) : silent isProbing (Resolve h w t).
Proof. unfold Resolve. silence. Qed.

(** Running [m] and then [k] returned [b]: inversion of a bind. *)
Ltac bind_inv H :=
  let a := fresh "a" in
  let Ha := fresh "Ha" in
  apply result_bind_Ret in H; destruct H as (a & Ha & H).

Lemma lift_index0_Ret {C : Type} (xs : list C) (x : C) :
  result (lift (index0 xs)) = Ret x -> exists rest, xs = x :: rest.
Proof.
  destruct xs as [|y rest]; cbn; intros H; [discriminate|].
  injection H as ->. now exists rest.
Qed.

(** What [Resolve] writes: the host name, the address and, when the
    forward lookup fails, the status [OfflineFiltered]. *)
Lemma Resolve_writes (t t' : Target) :
  result (Resolve h w t) = Ret t' ->
  MACAddr t' = MACAddr t
  /\ Location t' = Location t
  /\ (Status t' = Status t \/ Status t' = OfflineFiltered).
Proof.
  unfold Resolve. intros H.
  destruct (ValidateIPOrRange h (InitialTarget t)).
  - bind_inv H. bind_inv H. cbn in H. injection H as <-.
    destruct (LookupAddr w (InitialTarget t)) as [names|].
    + bind_inv Ha0. cbn in Ha0. injection Ha0 as <-. cbn. auto.
    + cbn in Ha0. injection Ha0 as <-. cbn. auto.
  - bind_inv H.
    destruct (LookupIP w (InitialTarget t)) as [ips|].
    + bind_inv H. bind_inv H.
      destruct (LookupAddr w _) as [names|].
      * bind_inv H. cbn in H. injection H as <-. cbn. auto.
      * cbn in H. injection H as <-. cbn. auto.
    + cbn in H. injection H as <-. cbn. auto.
Qed.

Lemma Ping_keeps_IPAddr (t : Target) (count : Z) (priv : bool)
      (r : Target * option Statistics) :
  result (Ping w t count priv) = Ret r -> IPAddr (fst r) = IPAddr t.
Proof.
  unfold Ping. destruct (NewPinger w _ _); cbn; intros H;
    injection H as <-; reflexivity.
Qed.

Lemma activeArp_keeps_IPAddr (t t' : Target) :
  result (activeArp w t) = Ret t' -> IPAddr t' = IPAddr t.
Proof.
  unfold activeArp. destruct (arpProbe w (IPAddr t)) as [| | | |[hw|]];
    try destruct (isZeroMAC hw); cbn; intros H; injection H as <-;
    reflexivity.
Qed.

Lemma QueryMac_keeps_IPAddr (t t' : Target) :
  result (QueryMac w t) = Ret t' -> IPAddr t' = IPAddr t.
Proof.
  unfold QueryMac. intros H. bind_inv H.
  destruct (isHost w (IPAddr t)) as [| |hw].
  3: { cbn in H. injection H as <-. reflexivity. }
  all: bind_inv H;
    destruct (ParseMAC w _) as [mac|];
    [ destruct (isZeroMAC mac); cbn [negb] in H;
      [ now apply activeArp_keeps_IPAddr
      | cbn in H; injection H as <-; reflexivity ]
    | now apply activeArp_keeps_IPAddr ].
Qed.

Lemma LookUpVendor_keeps_IPAddr (t t' : Target) :
  result (LookUpVendor w t) = Ret t' -> IPAddr t' = IPAddr t.
Proof.
  unfold LookUpVendor. destruct (MACAddr t) as [mac|].
  - destruct (LookupVendor w mac); cbn; intros H; injection H as <-;
      reflexivity.
  - cbn. intros H. injection H as <-. reflexivity.
Qed.

(** A target that leaves construction without an address went through
    the branch that skips every probe. *)
Lemma construct_unresolved (t : string) (ports : netUtil.Ports) (priv : bool)
      (tgt : Target) :
  result (construct h w t ports priv) = Ret tgt ->
  IPAddr tgt = None ->
  Location tgt = UnknownLoc
  /\ MACAddr tgt = None
  /\ (Status tgt = OfflineFiltered \/ Status tgt = Unknown)
  /\ silent isProbing (construct h w t ports priv).
Proof.
  unfold construct. intros H Hnil.
  set (h0 := mkTarget "" "" None None t Unknown 0 ports []) in *.
  pose proof H as H'. bind_inv H'. rename a into h1.
  destruct (Resolve_writes h0 h1 Ha) as (_ & _ & Hst).
  destruct (IPAddr h1) as [ip|] eqn:Hip.
  - exfalso. bind_inv H'. rename a into r.
    apply Ping_keeps_IPAddr in Ha0.
    destruct (snd r) as [stats|]; [|discriminate H'].
    bind_inv H'. rename a into h3.
    apply QueryMac_keeps_IPAddr in Ha1.
    apply LookUpVendor_keeps_IPAddr in H'.
    assert (IPAddr tgt = Some ip).
    { rewrite H', Ha1.
      destruct (PacketsRecv stats >? 0); cbn; congruence. }
    congruence.
  - cbn in H'. injection H' as <-. cbn.
    split; [reflexivity|]. split; [reflexivity|]. split.
    + destruct Hst as [-> | ->]; [right | left]; reflexivity.
    + unfold silent. rewrite (trace_bind_Ret _ _ h1 Ha), Hip. cbn.
      rewrite app_nil_r. apply Resolve_no_probing.
Qed.

End Construction.

(** ** Scanning *)

Section Scanning.

Import netUtil pScan.

Local Open Scope list_scope.

Variable w : World.
Variable sched : Schedule.

Lemma probe_keeps_IPAddr (fuel : nat) (p : Port) :
  forall (attempt : nat) (t : Target) (r : Target * PortResults),
    result (probe w fuel attempt t p) = Ret r -> IPAddr (fst r) = IPAddr t.
Proof.
  induction fuel as [|fuel IH]; intros attempt t r H; [discriminate H|].
  cbn [probe] in H. rewrite mbind_emits in H. cbn [result snd] in H.
  destruct (prAgain _).
  - apply IH in H. rewrite H. apply scanPort_keeps_IPAddr.
  - cbn in H. injection H as <-. apply scanPort_keeps_IPAddr.
Qed.

Lemma collectPorts_keeps_IPAddr (fuel : nat) (ps : list Port) :
  forall (t : Target) (acc : PortResults) (r : Target * PortResults),
    result (collectPorts w fuel t ps acc) = Ret r -> IPAddr (fst r) = IPAddr t.
Proof.
  induction ps as [|p ps IH]; intros t acc r H.
  - cbn in H. injection H as <-. reflexivity.
  - cbn [collectPorts] in H.
    apply result_bind_Ret in H. destruct H as (r1 & Hone & H).
    apply IH in H. apply probe_keeps_IPAddr in Hone. congruence.
Qed.

Lemma Target_scan_keeps_IPAddr (fuel : nat) (t : Target) (r : ScanResult) :
  result (Target_scan w sched fuel t) = Ret r ->
  IPAddr (srTarget r) = IPAddr t.
Proof.
  unfold Target_scan. intros H.
  apply result_bind_Ret in H. destruct H as (r' & Hbody & H).
  cbn in H. injection H as <-.
  unfold scanBody in Hbody.
  apply result_bind_Ret in Hbody. destruct Hbody as (_ & _ & Hbody).
  apply result_bind_Ret in Hbody. destruct Hbody as (done & Hports & Hbody).
  cbn in Hbody. injection Hbody as <-.
  cbn. now apply collectPorts_keeps_IPAddr in Hports.
Qed.

(** Every scan result collected belongs to one of the targets scanned. *)
Lemma collectScans_targets (fuel : nat) (ts : list Target) :
  forall rs : list ScanResult,
    result (collectScans w sched fuel ts) = Ret rs ->
    forall r, In r rs -> exists t, In t ts /\ IPAddr (srTarget r) = IPAddr t.
Proof.
  induction ts as [|t ts IH]; intros rs H r Hr.
  - cbn in H. injection H as <-. destruct Hr.
  - cbn [collectScans] in H.
    apply result_bind_Ret in H. destruct H as (r1 & Hone & H).
    apply result_bind_Ret in H. destruct H as (rs1 & Hrest & H).
    cbn in H. injection H as <-.
    destruct Hr as [<- | Hr].
    + exists t. split; [now left|]. now apply Target_scan_keeps_IPAddr in Hone.
    + destruct (IH _ Hrest r Hr) as (t' & Hin & E).
      exists t'. split; [now right | exact E].
Qed.

Lemma dispatch_unresolved (ts : Targets) (t : Target) :
  In t (fst (dispatch ts)) <-> In t ts /\ IPAddr t = None.
Proof.
  induction ts as [|x ts IH]; cbn [dispatch].
  - cbn. tauto.
  - destruct (IPAddr x) eqn:E; cbn [fst In]; rewrite IH.
    + split; [tauto|]. intros [[-> | H] Hn]; [congruence | tauto].
    + split; [intros [-> | H]; tauto | tauto].
Qed.

Lemma dispatch_resolved (ts : Targets) (t : Target) :
  In t (snd (dispatch ts)) <-> In t ts /\ IPAddr t <> None.
Proof.
  induction ts as [|x ts IH]; cbn [dispatch].
  - cbn. tauto.
  - destruct (IPAddr x) eqn:E; cbn [snd In]; rewrite IH.
    + split; [intros [-> | H]; [split; [tauto | congruence] | tauto] | tauto].
    + split; [tauto|]. intros [[-> | H] Hn]; [congruence | tauto].
Qed.

Lemma Targets_Scan_result (fuel : nat) (ts : Targets) (res : MultiScanResult) :
  fair sched ->
  result (Targets_Scan w sched fuel ts) = Ret res ->
  Unresolved res = fst (dispatch ts)
  /\ forall r, In r (Resolved res) -> IPAddr (srTarget r) <> None.
Proof.
  intros Hfair H. unfold Targets_Scan in H.
  apply result_bind_Ret in H. destruct H as (_ & _ & H).
  apply result_bind_Ret in H. destruct H as (_ & _ & H).
  apply result_bind_Ret in H. destruct H as (rs & Hscans & H).
  cbn in H. injection H as <-.
  cbn. split; [reflexivity|]. intros r Hr.
  destruct (collectScans_targets _ _ _ Hscans r Hr) as (t & Hin & E).
  apply (Permutation_in _ (Hfair _ _)) in Hin.
  apply dispatch_resolved in Hin. rewrite E. tauto.
Qed.

(** When no connect attempt meets descriptor exhaustion, every probe is
    its own last attempt and the receiving loops get all their results
    (every [Acquire] being granted). *)
Section NoExhaustion.

Hypothesis never_exhausted :
  forall (address : string) (k : nat),
    exhausted (DialTimeout w address k) = false.

Lemma probe_returns (fuel attempt : nat) (t : Target) (p : Port) :
  returns (result (probe w (S fuel) attempt t p)) = true.
Proof.
  cbn [probe]. rewrite mbind_emits, prAgain_exhausted, never_exhausted.
  reflexivity.
Qed.

Lemma collectPorts_returns (fuel : nat) (ps : list Port) :
  forall (t : Target) (acc : PortResults),
    returns (result (collectPorts w (S fuel) t ps acc)) = true.
Proof.
  induction ps as [|p ps IH]; intros t acc; [reflexivity|].
  cbn [collectPorts].
  pose proof (probe_returns fuel 0 t p) as Hp.
  destruct (result (probe w (S fuel) 0 t p)) as [r| |] eqn:E;
    try discriminate Hp.
  rewrite (bind_Ret _ _ r E). cbn [result snd]. apply IH.
Qed.

Lemma Target_scan_returns (fuel : nat) (t : Target) :
  returns (result (Target_scan w sched (S fuel) t)) = true.
Proof.
  unfold Target_scan, scanBody.
  pose proof (collectPorts_returns fuel (completion sched _ (Ports t)) t
                (srPorts (NewScanResult t (now w)))) as Hc.
  destruct (result (collectPorts w (S fuel) t _ _)) as [r| |] eqn:E;
    try discriminate Hc.
  unfold result, mbind in *. cbn [emits fst snd]. rewrite E. reflexivity.
Qed.

Lemma collectScans_returns (fuel : nat) (ts : list Target) :
  returns (result (collectScans w sched (S fuel) ts)) = true.
Proof.
  induction ts as [|t ts IH]; [reflexivity|].
  cbn [collectScans].
  pose proof (Target_scan_returns fuel t) as Ht.
  destruct (result (Target_scan w sched (S fuel) t)) as [r| |] eqn:E;
    try discriminate Ht.
  rewrite (bind_Ret _ _ r E). cbn [result snd].
  destruct (result (collectScans w sched (S fuel) ts)) as [rs| |] eqn:E';
    try discriminate IH.
  rewrite (bind_Ret _ _ rs E'). reflexivity.
Qed.

Lemma Targets_Scan_returns (fuel : nat) (ts : Targets) :
  returns (result (Targets_Scan w sched (S fuel) ts)) = true.
Proof.
  unfold Targets_Scan.
  pose proof (collectScans_returns fuel
                (completion sched _ (snd (dispatch ts)))) as Hc.
  destruct (result (collectScans w sched (S fuel) _)) as [rs| |] eqn:E;
    try discriminate Hc.
  unfold result, mbind in *. cbn [emit emits fst snd]. rewrite E.
  reflexivity.
Qed.

End NoExhaustion.

End Scanning.

(** ** Targets without an address *)

Section Unresolved.

Import netUtil pScan.

Local Open Scope list_scope.

(** C4.  A target that leaves [NewTarget] or [AsyncNewTarget] with a nil
    [IPAddr] has [Location = UnknownLoc], a nil [MACAddr] and the status
    [OfflineFiltered] or [Unknown]; its construction sent no echo
    request, consulted no interface or ARP table and looked up no
    vendor.  [Targets.Scan] sets it aside as unresolved and starts no
    scan for it, and in every result of [Targets.Scan], whatever the
    order in which the scans complete, the target is in [Unresolved] and
    no entry of [Resolved] is about it. *)
Theorem unresolved_target_unprobed_unscanned
        (h : Helper) (w : World) (sched : Schedule)
        (t : string) (ports : netUtil.Ports) (privileged : bool)
        (tgt : Target) (ts : Targets) :
  fair sched ->
  result (NewTarget h w t ports privileged) = Ret tgt
  \/ result (AsyncNewTarget h w t ports privileged) = Ret tgt ->
  IPAddr tgt = None ->
  In tgt ts ->
  Location tgt = UnknownLoc
  /\ MACAddr tgt = None
  /\ (Status tgt = OfflineFiltered \/ Status tgt = Unknown)
  /\ silent isProbing (NewTarget h w t ports privileged)
  /\ silent isProbing (AsyncNewTarget h w t ports privileged)
  /\ In tgt (fst (dispatch ts))
  /\ ~ In tgt (snd (dispatch ts))
  /\ (forall (fuel : nat) (res : MultiScanResult),
        result (Targets_Scan w sched fuel ts) = Ret res ->
        In tgt (Unresolved res)
        /\ forall r, In r (Resolved res) -> srTarget r <> tgt).
Proof.
  intros Hfair Hbuilt Hnil Hin.
  assert (Hc : result (construct h w t ports privileged) = Ret tgt).
  { destruct Hbuilt as [H | H]; [exact H|].
    unfold AsyncNewTarget in H.
    apply result_bind_Ret in H. destruct H as (_ & _ & H).
    apply result_bind_Ret in H. destruct H as (h1 & Hh1 & H).
    cbn in H. injection H as <-. exact Hh1. }
  destruct (construct_unresolved h w t ports privileged tgt Hc Hnil)
    as (Hloc & Hmac & Hst & Hquiet).
  do 3 (split; [assumption|]).
  split; [exact Hquiet|].
  split.
  { unfold AsyncNewTarget, silent.
    rewrite (trace_bind_Ret (emit (EvAcquire 4)) _ tt eq_refl).
    rewrite (trace_bind_Ret _ _ tgt Hc). cbn.
    rewrite existsb_app, Hquiet. reflexivity. }
  split; [apply dispatch_unresolved; tauto|].
  split; [rewrite dispatch_resolved; tauto|].
  intros fuel res Hres.
  destruct (Targets_Scan_result w sched fuel ts res Hfair Hres) as (Hu & Hr).
  split.
  - rewrite Hu. apply dispatch_unresolved. tauto.
  - intros r Hinr E. apply (Hr r Hinr). now rewrite E.
Qed.

Lemma fair_fifo : fair fifo.
Proof. intros A l. apply Permutation_refl. Qed.

Lemma unresolved_target_unprobed_unscanned_witness :
  let w := sampleWorld (fun _ _ => Connected) in
  let tgt := mkTarget "" "" None None "nohost.invalid" OfflineFiltered
                      UnknownLoc [NewPort 80 "tcp"] [] in
  let scanned := setStatus sampleTarget Online in
  let res := mkMultiScanResult
               [mkScanResult scanned 0 0 (mkPortResults [NewPort 80 "tcp"] [] [])]
               [tgt] in
  result (NewTarget specHelper w "nohost.invalid" [NewPort 80 "tcp"] false)
  = Ret tgt
  /\ result (Targets_Scan w fifo 1 [tgt; sampleTarget]) = Ret res
  /\ Location tgt = UnknownLoc
  /\ In tgt (fst (dispatch [tgt; sampleTarget]))
  /\ In tgt (Unresolved res)
  /\ forall r, In r (Resolved res) -> srTarget r <> tgt.
Proof.
  cbv zeta. split; [reflexivity|]. split; [reflexivity|].
  destruct (unresolved_target_unprobed_unscanned
              specHelper (sampleWorld (fun _ _ => Connected)) fifo
              "nohost.invalid" [NewPort 80 "tcp"] false
              (mkTarget "" "" None None "nohost.invalid" OfflineFiltered
                        UnknownLoc [NewPort 80 "tcp"] [])
              [mkTarget "" "" None None "nohost.invalid" OfflineFiltered
                        UnknownLoc [NewPort 80 "tcp"] []; sampleTarget])
    as (Hloc & _ & _ & _ & _ & Hin & _ & Hscan).
  - exact fair_fifo.
  - left. reflexivity.
  - reflexivity.
  - left. reflexivity.
  - split; [exact Hloc|]. split; [exact Hin|].
    apply (Hscan 1%nat). reflexivity.
Defined.

End Unresolved.

(** ** Name resolution *)

Section Resolution.

Import netUtil pScan.

Local Open Scope list_scope.

(** For a host name whose forward lookup succeeds, [Resolve] asks
    [net.LookupAddr] about the bytes of the first address converted to a
    string, and keeps the input string as host name when that query
    fails. *)
Lemma Resolve_hostname (h : Helper) (w : World) (t : Target)
      (ip : IP) (ips : list IP) :
  ValidateIPOrRange h (InitialTarget t) = false ->
  LookupIP w (InitialTarget t) = Some (ip :: ips) ->
  trace (Resolve h w t) =
     [EvLookupIP (InitialTarget t); EvLookupAddr (bytesToString ip)]
  /\ (LookupAddr w (bytesToString ip) = None ->
      result (Resolve h w t)
      = Ret (setHostName (setIPAddr t ip) (InitialTarget t))).
Proof.
  intros Hv Hl. unfold Resolve. rewrite Hv, Hl. cbn.
  destruct (LookupAddr w (bytesToString ip)) as [[|n names]|]; cbn;
    repeat split; intros; try reflexivity; discriminate.
Qed.

(** C8 (the code at the failing input).  [example.com] resolves to
    93.184.216.34 and that address has the reverse name
    [ptr.example.net.]; [Resolve] queries the four raw bytes instead of
    the text "93.184.216.34", the query fails, and the host name stays
    [example.com]. *)
Theorem Resolve_reverse_lookup_of_raw_bytes :
  let t := mkTarget "" "" None None "example.com" Unknown 0 [] [] in
  let ip := Some [93; 184; 216; 34] in
  LookupIP dnsWorld "example.com" = Some [ip]
  /\ IP_String dnsWorld ip = "93.184.216.34"
  /\ LookupAddr dnsWorld (IP_String dnsWorld ip) = Some ["ptr.example.net."]
  /\ trace (Resolve specHelper dnsWorld t) =
     [EvLookupIP "example.com"; EvLookupAddr (bytesToString ip)]
  /\ bytesToString ip <> IP_String dnsWorld ip
  /\ result (Resolve specHelper dnsWorld t)
     = Ret (mkTarget "example.com" "" ip None "example.com" Unknown 0 [] []).
Proof.
  cbv zeta. repeat split; try reflexivity. discriminate.
Qed.

End Resolution.

(** ** Expansion of the host string *)

Section DashRanges.

Import netUtil pScan.

Local Open Scope list_scope.

(** C6.  For the token [10.0.1-3.5] the expander starts exactly three
    units, for 10.0.1.5, 10.0.2.5 and 10.0.3.5 in this order: one per
    integer of the inclusive range, the first octet outermost and the
    fourth innermost. *)
Theorem dash_range_10_0_1to3_5 (fuel : nat) :
  fillOctets specHelper 0 (strings.Split "10.0.1-3.5" "."%char)
             [[]; []; []; []]
  = Ret [[10]; [0]; [1; 2; 3]; [5]]
  /\ expandHostArg specHelper fuel "10.0.1-3.5"
     = ([EvGoAsyncNewTarget "10.0.1.5"; EvGoAsyncNewTarget "10.0.2.5";
         EvGoAsyncNewTarget "10.0.3.5"],
        Ret ["10.0.1.5"; "10.0.2.5"; "10.0.3.5"])
  /\ expandHosts specHelper fuel (strings.Split "10.0.1-3.5" ","%char)
     = ([EvGoAsyncNewTarget "10.0.1.5"; EvGoAsyncNewTarget "10.0.2.5";
         EvGoAsyncNewTarget "10.0.3.5"],
        Ret ["10.0.1.5"; "10.0.2.5"; "10.0.3.5"])
  /\ octetsToTargets [[1; 2]; [3]; [4; 5]; [6; 7]]
     = ["1.3.4.6"; "1.3.4.7"; "1.3.5.6"; "1.3.5.7";
        "2.3.4.6"; "2.3.4.7"; "2.3.5.6"; "2.3.5.7"].
Proof.
  repeat split; reflexivity.
Qed.

End DashRanges.

(** ** CIDR blocks *)

Section MaskArithmetic.

Import pScan.

(** Masking with a prefix mask clears the host bits. *)
Lemma CIDRMask_land (n ip : Z) :
  0 <= n <= 32 -> 0 <= ip < 2 ^ 32 ->
  Z.land ip (CIDRMask n) = 2 ^ (32 - n) * (ip / 2 ^ (32 - n)).
Proof.
  intros Hn Hip. unfold CIDRMask.
  rewrite <- Z.shiftr_div_pow2 by lia.
  rewrite Z.mul_comm, <- Z.shiftl_mul_pow2 by lia.
  apply Z.bits_inj'. intros i Hi.
  rewrite Z.land_spec, !Z.shiftl_spec by lia.
  destruct (Z.ltb_spec i (32 - n)) as [Hlt | Hge].
  - rewrite (Z.testbit_neg_r _ (i - (32 - n))) by lia.
    rewrite (Z.testbit_neg_r _ (i - (32 - n))) by lia.
    apply andb_false_r.
  - rewrite Z.shiftr_spec by lia.
    replace (i - (32 - n) + (32 - n)) with i by lia.
    destruct (Z.ltb_spec i 32) as [Hlt | Hhigh].
    + rewrite Z.ones_spec_low by lia. apply andb_true_r.
    + rewrite Z.ones_spec_high by lia.
      rewrite andb_false_r. symmetry.
      replace ip with (ip mod 2 ^ 32) by (apply Z.mod_small; lia).
      apply Z.mod_pow2_bits_high. lia.
Qed.

Lemma lor_below (k a b : Z) :
  0 <= k -> 0 <= a < 2 ^ k -> 0 <= b < 2 ^ k -> 0 <= Z.lor a b < 2 ^ k.
Proof.
  intros Hk Ha Hb.
  rewrite <- (Z.mod_small a (2 ^ k)), <- (Z.mod_small b (2 ^ k)) by lia.
  rewrite <- !Z.land_ones by lia.
  rewrite <- Z.land_lor_distr_l, Z.land_ones by lia.
  apply Z.mod_pos_bound. lia.
Qed.

Lemma ipv4Value_range (a b c d : Z) :
  0 <= a <= 255 -> 0 <= b <= 255 -> 0 <= c <= 255 -> 0 <= d <= 255 ->
  0 <= ipv4Value a b c d < 2 ^ 32.
Proof.
  intros Ha Hb Hc Hd. unfold ipv4Value.
  rewrite !Z.shiftl_mul_pow2 by lia.
  repeat apply lor_below; lia.
Qed.

Lemma addressesFrom_S (a : Z) (m : nat) :
  addressesFrom a (S m) = a :: addressesFrom (a + 1) m.
Proof.
  unfold addressesFrom. cbn [seq map]. f_equal; [lia|].
  rewrite <- seq_shift, map_map. apply map_ext. intros i. lia.
Qed.

End MaskArithmetic.

Section Block.

Import pScan.

Local Open Scope list_scope.

Variables ip0 n : Z.
Hypothesis ip0_range : 0 <= ip0 < 2 ^ 32.
Hypothesis n_range : 0 <= n <= 32.

Let size : Z := 2 ^ (32 - n).
Let q : Z := ip0 / size.
Let base : Z := Mask ip0 (CIDRMask n).
Let block : IPNet := mkIPNet base (CIDRMask n).

Lemma size_pos : 0 < size.
Proof. unfold size. apply Z.pow_pos_nonneg; lia. Qed.

Lemma size_times : size * 2 ^ n = 2 ^ 32.
Proof.
  unfold size. rewrite <- Z.pow_add_r by lia. f_equal. lia.
Qed.

Lemma base_eq : base = size * q.
Proof. unfold base, Mask. now rewrite CIDRMask_land. Qed.

Lemma q_range : 0 <= q < 2 ^ n.
Proof.
  pose proof size_pos. pose proof size_times. unfold q. split.
  - apply Z.div_pos; lia.
  - apply Z.div_lt_upper_bound; lia.
Qed.

Lemma base_range : 0 <= base /\ base + size <= 2 ^ 32.
Proof.
  pose proof size_pos. pose proof size_times. pose proof q_range.
  rewrite base_eq. nia.
Qed.

(** The block contains exactly the addresses that agree with it above
    the host bits. *)
Lemma Contains_block (ip : Z) :
  0 <= ip < 2 ^ 32 ->
  Contains block ip = (ip / size =? q).
Proof.
  intros Hip. pose proof size_pos. pose proof base_range.
  unfold Contains, block. cbn [netIP netMask].
  rewrite !CIDRMask_land by lia. fold size.
  rewrite base_eq at 1.
  replace (size * q / size) with q by (rewrite Z.mul_comm, Z.div_mul; lia).
  destruct (Z.eqb_spec (ip / size) q) as [-> | Hne].
  - apply Z.eqb_refl.
  - apply Z.eqb_neq. nia.
Qed.

Lemma inside_block (j : Z) :
  0 <= j < size -> Contains block (base + j) = true.
Proof.
  intros Hj. pose proof base_range.
  rewrite Contains_block by lia. apply Z.eqb_eq.
  rewrite base_eq. symmetry. apply (Z.div_unique _ _ q j); lia.
Qed.

(** The successor of the last address of a block is outside the block,
    also when it wraps around to 0.0.0.0, unless the block is everything. *)
Lemma after_block :
  1 <= n -> Contains block ((base + size) mod 2 ^ 32) = false.
Proof.
  intros Hn. pose proof size_pos. pose proof base_range as [Hb0 Hb1].
  pose proof q_range. pose proof size_times.
  rewrite Contains_block by (apply Z.mod_pos_bound; lia).
  apply Z.eqb_neq.
  destruct (Z.eq_dec (base + size) (2 ^ 32)) as [E | E].
  - rewrite E, Z.mod_same by lia. rewrite Z.div_0_l by lia.
    assert (1 < 2 ^ n) by (apply Z.pow_gt_1; lia).
    rewrite base_eq in E. nia.
  - rewrite Z.mod_small by lia.
    rewrite base_eq.
    replace (size * q + size) with ((q + 1) * size) by ring.
    rewrite Z.div_mul by lia. lia.
Qed.

Lemma cidrLoop_from (extra m : nat) :
  forall j : Z,
    1 <= n -> 0 <= j -> j + Z.of_nat m = size ->
    cidrLoop specHelper (S m + extra) block ((base + j) mod 2 ^ 32)
    = (map (fun a => EvGoAsyncNewTarget (IPv4_String a))
           (addressesFrom (base + j) m),
       Ret (addressesFrom (base + j) m)).
Proof.
  induction m as [|m IH]; intros j Hn Hj Hsum.
  - replace j with size by lia. cbn [Nat.add cidrLoop].
    rewrite after_block by lia. reflexivity.
  - pose proof base_range.
    rewrite Z.mod_small by lia.
    change (S (S m) + extra)%nat with (S (S m + extra)).
    cbn [cidrLoop]. rewrite inside_block by lia.
    cbn [IncIp specHelper]. unfold specIncIp.
    replace (base + j + 1) with (base + (j + 1)) by lia.
    rewrite (IH (j + 1)) by lia.
    rewrite addressesFrom_S.
    replace (base + j + 1) with (base + (j + 1)) by lia.
    unfold mbind, emit, ret. cbn [fst snd app map].
    now rewrite app_nil_r.
Qed.

Lemma broadcast_eq : broadcast ip0 n = base + size - 1.
Proof.
  pose proof size_pos as Hs. unfold broadcast. fold base.
  pose proof (Z.add_lor_land base (Z.ones (32 - n))) as E.
  rewrite Z.land_ones in E by lia. fold size in E.
  rewrite base_eq, Z.mul_comm, Z.mod_mul in E by lia.
  rewrite Z.ones_equiv in E. fold size in E.
  rewrite Z.ones_equiv. fold size.
  rewrite base_eq, (Z.mul_comm size q). lia.
Qed.

End Block.

Section CIDRExpansion.

Import pScan.

Local Open Scope list_scope.

Lemma addressesFrom_In (first : Z) (count : nat) (a : Z) :
  In a (addressesFrom first count) <->
  first <= a < first + Z.of_nat count.
Proof.
  unfold addressesFrom. rewrite in_map_iff. split.
  - intros (i & <- & Hi). apply in_seq in Hi. lia.
  - intros Ha. exists (Z.to_nat (a - first)). split; [lia|].
    apply in_seq. lia.
Qed.

Lemma addressesFrom_NoDup (first : Z) (count : nat) :
  NoDup (addressesFrom first count).
Proof.
  unfold addressesFrom. apply Finite.Injective_map_NoDup.
  - intros i j Hij. lia.
  - apply seq_NoDup.
Qed.

Lemma addressesFrom_length (first : Z) (count : nat) :
  List.length (addressesFrom first count) = count.
Proof.
  unfold addressesFrom. now rewrite length_map, length_seq.
Qed.

(** For a prefix length from 1 to 32 the loop of [ParseHostString] over
    the block of [ip] ends, given a budget above the size of the block,
    and visits the [2^(32-n)] addresses from the masked network address
    upwards: as many as the block has, each in the block, no two equal,
    the network address first and the broadcast address last. *)
Theorem cidr_block_visited (ip n : Z) (fuel : nat) :
  0 <= ip < 2 ^ 32 ->
  1 <= n <= 32 ->
  2 ^ (32 - n) < Z.of_nat fuel ->
  let base := Mask ip (CIDRMask n) in
  let block := mkIPNet base (CIDRMask n) in
  let visited := addressesFrom base (Z.to_nat (2 ^ (32 - n))) in
  cidrLoop specHelper fuel block base
  = (map (fun a => EvGoAsyncNewTarget (IPv4_String a)) visited, Ret visited)
  /\ Z.of_nat (List.length visited) = 2 ^ (32 - n)
  /\ NoDup visited
  /\ (forall a, In a visited -> Contains block a = true)
  /\ hd_error visited = Some base
  /\ In (broadcast ip n) visited.
Proof.
  intros Hip Hn Hfuel base block visited.
  assert (Hn' : 0 <= n <= 32) by lia.
  pose proof (size_pos ip n Hn') as Hsize.
  pose proof (base_range ip n Hip Hn') as [Hb0 Hb1]. fold base in Hb0, Hb1.
  set (m := Z.to_nat (2 ^ (32 - n))) in *.
  assert (Hm : Z.of_nat m = 2 ^ (32 - n)) by (unfold m; lia).
  split; [|split; [|split; [|split; [|split]]]].
  - replace fuel with (S m + (fuel - S m))%nat by lia.
    replace base with ((base + 0) mod 2 ^ 32) at 1
      by (rewrite Z.add_0_r; apply Z.mod_small; lia).
    unfold block, base.
    rewrite (cidrLoop_from ip n Hip Hn' (fuel - S m) m 0) by lia.
    fold base. rewrite Z.add_0_r. reflexivity.
  - unfold visited. rewrite addressesFrom_length. exact Hm.
  - apply addressesFrom_NoDup.
  - intros a Ha. apply addressesFrom_In in Ha.
    replace a with (base + (a - base)) by lia.
    apply (inside_block ip n Hip Hn'). lia.
  - unfold visited. destruct m as [|m']; [lia|].
    rewrite addressesFrom_S. reflexivity.
  - apply addressesFrom_In.
    rewrite (broadcast_eq ip n Hip Hn'). fold base. lia.
Qed.

Lemma parseDigits_nonneg (s : string) :
  forall acc v, 0 <= acc -> strconv.parseDigits acc s = Some v -> 0 <= v.
Proof.
  induction s as [|c s IH]; intros acc v Hacc H;
    cbn [strconv.parseDigits] in H.
  - injection H as <-. exact Hacc.
  - unfold strconv.digitVal in H.
    destruct ((48 <=? Z.of_N (N_of_ascii c)) && (Z.of_N (N_of_ascii c) <=? 57))
      eqn:E; [|discriminate H].
    apply andb_true_iff in E. destruct E as [E1 E2].
    apply Z.leb_le in E1. apply IH in H; [exact H | lia].
Qed.

Lemma parseOctet_range (s : string) (v : Z) :
  parseOctet s = Some v -> 0 <= v <= 255.
Proof.
  unfold parseOctet, strconv.unsignedDecimal. intros H.
  assert (Hd : forall s', match strconv.parseDigits 0 s' with
                          | Some v0 => if v0 <=? 255 then Some v0 else None
                          | None => None
                          end = Some v -> 0 <= v <= 255).
  { intros s' H'. destruct (strconv.parseDigits 0 s') as [v0|] eqn:E;
      [|discriminate H'].
    destruct (Z.leb_spec v0 255); [|discriminate H'].
    injection H' as <-. apply parseDigits_nonneg in E; lia. }
  destruct s as [|c [|c' s']]; try discriminate H.
  - apply (Hd (String c EmptyString)).
    destruct (Ascii.eqb c "0") eqn:Ec.
    + apply Ascii.eqb_eq in Ec. subst c. exact H.
    + destruct c as [[] [] [] [] [] [] [] []]; exact H.
  - apply (Hd (String c (String c' s'))).
    destruct c as [[] [] [] [] [] [] [] []]; try exact H; discriminate H.
Qed.

Lemma ParseCIDR_spec (s : string) (ip : Z) (ipNet : IPNet) :
  ParseCIDR s = Some (ip, ipNet) ->
  exists n, 0 <= n <= 32 /\ 0 <= ip < 2 ^ 32
            /\ ipNet = mkIPNet (Mask ip (CIDRMask n)) (CIDRMask n).
Proof.
  unfold ParseCIDR. intros H.
  destruct (cutSlash "" s) as [[addr mask]|]; [|discriminate H].
  destruct (parseIPv4 addr) as [ip'|] eqn:Eip; [|discriminate H].
  destruct (strconv.unsignedDecimal mask) as [n|] eqn:En; [|discriminate H].
  destruct (Z.leb_spec n 32) as [Hle|]; [|discriminate H].
  injection H as <- <-. exists n.
  split; [|split; [|reflexivity]].
  - split; [|exact Hle]. unfold strconv.unsignedDecimal in En.
    destruct mask; [discriminate En|].
    now apply parseDigits_nonneg in En.
  - unfold parseIPv4 in Eip.
    destruct (strings.Split addr ".") as [|a [|b [|c [|d [|]]]]];
      try discriminate Eip.
    destruct (parseOctet a) as [va|] eqn:Ea; [|discriminate Eip].
    destruct (parseOctet b) as [vb|] eqn:Eb; [|discriminate Eip].
    destruct (parseOctet c) as [vc|] eqn:Ec; [|discriminate Eip].
    destruct (parseOctet d) as [vd|] eqn:Ed; [|discriminate Eip].
    injection Eip as <-.
    apply ipv4Value_range; eapply parseOctet_range; eassumption.
Qed.

(** The same on the token: a token that [ParseCIDR] accepts with a
    prefix length [n] from 1 to 32 starts one unit for each of the
    [2^(32-n)] addresses of its block, in ascending order. *)
Lemma cidr_token_expansion (s : string) (ip : Z) (ipNet : IPNet) :
  ParseCIDR s = Some (ip, ipNet) ->
  exists n,
    0 <= n <= 32
    /\ ipNet = mkIPNet (Mask ip (CIDRMask n)) (CIDRMask n)
    /\ (1 <= n ->
        forall fuel : nat,
          2 ^ (32 - n) < Z.of_nat fuel ->
          let texts := map IPv4_String
                           (addressesFrom (netIP ipNet)
                                          (Z.to_nat (2 ^ (32 - n)))) in
          expandHostArg specHelper fuel s
          = (map EvGoAsyncNewTarget texts, Ret texts)).
Proof.
  intros Hparse.
  destruct (ParseCIDR_spec s ip ipNet Hparse) as (n & Hn & Hip & ->).
  exists n. split; [exact Hn|]. split; [reflexivity|].
  intros Hn1 fuel Hfuel. cbn [netIP].
  unfold expandHostArg. rewrite Hparse. cbn [netMask].
  destruct (cidr_block_visited ip n fuel Hip ltac:(lia) Hfuel) as (Hloop & _).
  rewrite Hloop. unfold mbind, ret. cbn [fst snd].
  now rewrite app_nil_r, map_map.
Qed.

(** C5 (the code at the failing input).  The block of the token
    [0.0.0.0/0] contains every address, so the loop condition never
    fails: whatever [IncIp] does and whatever the budget, the loop has
    not ended when the budget is used up, and it has started one unit
    per step, hence more than [2^32] units in [2^32 + 1] steps. *)
Theorem cidr_whole_space_never_ends (h : Helper) (fuel : nat) :
  ParseCIDR "0.0.0.0/0" = Some (0, mkIPNet 0 0)
  /\ (forall ip, Contains (mkIPNet 0 0) ip = true)
  /\ result (expandHostArg h fuel "0.0.0.0/0") = Stuck
  /\ List.length (started (trace (expandHostArg h fuel "0.0.0.0/0"))) = fuel.
Proof.
  split; [reflexivity|].
  assert (Hall : forall ip, Contains (mkIPNet 0 0) ip = true).
  { intros ip. unfold Contains. cbn [netIP netMask].
    rewrite !Z.land_0_r. reflexivity. }
  split; [exact Hall|].
  assert (Hloop : forall ip,
             result (cidrLoop h fuel (mkIPNet 0 0) ip) = Stuck
             /\ List.length (started (trace (cidrLoop h fuel (mkIPNet 0 0) ip)))
                = fuel).
  { induction fuel as [|fuel IH]; intros ip; [split; reflexivity|].
    cbn [cidrLoop]. rewrite Hall.
    destruct (IH (IncIp h ip)) as [Hr Hl].
    unfold result, trace, mbind, emit in *. cbn [fst snd].
    rewrite Hr. cbn [fst snd app started List.length].
    split; [reflexivity | now rewrite Hl]. }
  change (expandHostArg h fuel "0.0.0.0/0")
    with (visited <~ cidrLoop h fuel (mkIPNet 0 0) (Mask 0 0) ;;
          ret (map IPv4_String visited)).
  destruct (Hloop (Mask 0 0)) as [Hr Hl].
  unfold result, trace, mbind in *. rewrite Hr. cbn [fst snd].
  split; [reflexivity | exact Hl].
Qed.

End CIDRExpansion.

(* ================================================================== *)
(** * Further properties *)

(** ** Port lists as text *)

Section PortsText.

Import netUtil pScan.

Local Open Scope list_scope.

Lemma append_empty_r (s : string) : (s ++ "")%string = s.
Proof.
  induction s as [|c s IH]; cbn; [reflexivity | now rewrite IH].
Qed.

Lemma joinLoop_without_breaks (n : Z) (ps : list Port) :
  forall (i : Z) (ret : string),
    (forall j, i <= j < i + Z.of_nat (List.length ps) ->
               lineBreakAt j n = false) ->
    joinLoop n i ps ret = (ret ++ separated ps)%string.
Proof.
  induction ps as [|p rest IH]; intros i ret Hno.
  - cbn. symmetry. apply append_empty_r.
  - cbn [joinLoop separated]. rewrite Hno by (cbn [List.length]; lia).
    rewrite IH.
    + now rewrite !append_assoc.
    + intros j Hj. apply Hno. cbn [List.length]. lia.
Qed.

Lemma separated_concat (ps : list Port) :
  ps <> [] ->
  separated ps = (concat ", " (map Port_String ps) ++ ", ")%string.
Proof.
  induction ps as [|p rest IH]; [congruence|]. intros _.
  destruct rest as [|q rest'].
  - reflexivity.
  - cbn [separated map concat] in *. rewrite IH by discriminate.
    now rewrite !append_assoc.
Qed.

Lemma no_break_up_to_eleven (n j : Z) :
  0 <= j < n -> n <= 11 -> lineBreakAt j n = false.
Proof.
  intros Hj Hn. unfold lineBreakAt.
  assert (Hcases : j = 0 \/ j = 1 \/ j = 2 \/ j = 3 \/ j = 4 \/ j = 5
                   \/ j = 6 \/ j = 7 \/ j = 8 \/ j = 9 \/ j = 10) by lia.
  destruct Hcases as [-> | [-> | [-> | [-> | [-> | [-> | [-> | [-> | [->
                     | [-> | ->]]]]]]]]]]; try reflexivity.
  assert (n = 11) by lia. subst n. reflexivity.
Qed.

(** X1.  For one to eleven ports, [Ports.String] and [Ports.Preview]
    both return the port texts joined by ", ", with no line break and no
    trailing separator: the first break can only come after the eleventh
    port. *)
Theorem Ports_text_joined (ps : netUtil.Ports) :
  ps <> [] ->
  (List.length ps <= 11)%nat ->
  Ports_String ps = Ret (concat ", " (map Port_String ps))
  /\ Ports_Preview ps = Ret (concat ", " (map Port_String ps)).
Proof.
  intros Hne Hlen.
  assert (Hloop : joinLoop (Z.of_nat (List.length ps)) 0 ps ""
                  = (concat ", " (map Port_String ps) ++ ", ")%string).
  { rewrite joinLoop_without_breaks.
    - cbn [append]. now apply separated_concat.
    - intros j Hj. apply no_break_up_to_eleven; lia. }
  unfold Ports_String, Ports_Preview. rewrite Hloop.
  change 2 with (len ", "). rewrite sliceTo_append.
  split; [reflexivity|].
  destruct (Z.ltb_spec (Z.of_nat (List.length ps)) maxPerLine) as [_ | H];
    [reflexivity | unfold maxPerLine in H; lia].
Qed.

Lemma Ports_text_joined_witness :
  Ports_String [NewPort 22 "tcp"; NewPort 80 "tcp"; NewPort 443 "tcp"]
  = Ret "22/tcp, 80/tcp, 443/tcp"
  /\ Ports_Preview [NewPort 22 "tcp"; NewPort 80 "tcp"; NewPort 443 "tcp"]
     = Ret "22/tcp, 80/tcp, 443/tcp".
Proof.
  apply (Ports_text_joined
           [NewPort 22 "tcp"; NewPort 80 "tcp"; NewPort 443 "tcp"]).
  - discriminate.
  - cbn. lia.
Defined.

Lemma lineBreakAt_in_preview (i n n' : Z) :
  0 <= i < 30 -> 30 <= n -> 30 <= n' -> lineBreakAt i n = lineBreakAt i n'.
Proof.
  intros Hi Hn Hn'. unfold lineBreakAt.
  destruct (Z.eqb_spec (i + 1) n) as [E | E];
    destruct (Z.eqb_spec (i + 1) n') as [E' | E']; try reflexivity.
  - assert (i = 29) by lia. subst i. reflexivity.
  - assert (i = 29) by lia. subst i. reflexivity.
Qed.

Lemma previewLoop_ignores_length (n n' : Z) (ps : list Port) :
  forall (i : Z) (ret : string),
    0 <= i -> i + Z.of_nat (List.length ps) <= 30 -> 30 <= n -> 30 <= n' ->
    previewLoop n i ps ret = previewLoop n' i ps ret.
Proof.
  induction ps as [|p rest IH]; intros i ret Hi Hlen Hn Hn'; [reflexivity|].
  cbn [previewLoop]. cbn [List.length] in Hlen.
  rewrite (lineBreakAt_in_preview i n n') by lia.
  apply IH; lia.
Qed.

Lemma firstn_plus {A : Type} (a b : nat) :
  forall l : list A, firstn (a + b) l = firstn a l ++ firstn b (skipn a l).
Proof.
  induction a as [|a IH]; intros l; [reflexivity|].
  destruct l as [|x l]; cbn [Nat.add firstn skipn app].
  - now rewrite firstn_nil.
  - now rewrite IH.
Qed.

Lemma no_break_inside_row (n k j : Z) :
  0 <= k -> 10 * k < j < 10 * k + 10 -> lineBreakAt j n = false.
Proof.
  intros Hk Hj. unfold lineBreakAt.
  assert (E : Z.rem j 10 = j - 10 * k).
  { rewrite Z.rem_mod_nonneg by lia. symmetry.
    apply (Z.mod_unique_pos j 10 k (j - 10 * k)); lia. }
  rewrite E. destruct (Z.eqb_spec (j - 10 * k) 0) as [H | _]; [lia|].
  now rewrite andb_false_r.
Qed.

Lemma previewLoop_app (n : Z) (a b : list Port) :
  forall (i : Z) (ret : string),
    previewLoop n i (a ++ b) ret
    = previewLoop n (i + Z.of_nat (List.length a)) b (previewLoop n i a ret).
Proof.
  induction a as [|p a IH]; intros i ret.
  - cbn. now rewrite Z.add_0_r.
  - cbn [app previewLoop]. rewrite IH. f_equal. cbn [List.length]. lia.
Qed.

Lemma previewLoop_without_breaks (n : Z) (ps : list Port) :
  forall (i : Z) (ret : string),
    (forall j, i <= j < i + Z.of_nat (List.length ps) ->
               lineBreakAt j n = false) ->
    previewLoop n i ps ret = (ret ++ separated ps)%string.
Proof.
  induction ps as [|p rest IH]; intros i ret Hno.
  - cbn. symmetry. apply append_empty_r.
  - cbn [previewLoop separated]. rewrite Hno by (cbn [List.length]; lia).
    rewrite IH.
    + now rewrite !append_assoc.
    + intros j Hj. apply Hno. cbn [List.length]. lia.
Qed.

(** A row of ten that starts at index [10 * k], [k >= 1], and is not the
    end of the list: the line break, then the ports of the row. *)
Lemma previewLoop_row (n k : Z) (ps : list Port) (ret : string) :
  1 <= k -> 10 * k + 1 <> n -> List.length ps = 10%nat ->
  previewLoop n (10 * k) ps ret = (ret ++ newline ++ separated ps)%string.
Proof.
  intros Hk Hn Hlen. destruct ps as [|p rest]; [discriminate Hlen|].
  cbn [List.length] in Hlen. cbn [previewLoop separated].
  assert (Hb : lineBreakAt (10 * k) n = true).
  { unfold lineBreakAt. rewrite Z.mul_comm, Z.rem_mul by lia.
    destruct (Z.eqb_spec (k * 10) 0) as [H | _]; [lia|].
    destruct (Z.eqb_spec (k * 10 + 1) n) as [H | _]; [lia | reflexivity]. }
  rewrite Hb, previewLoop_without_breaks.
  - now rewrite !append_assoc.
  - intros j Hj. apply (no_break_inside_row n k j); lia.
Qed.

Lemma first_row_without_breaks (n j : Z) :
  0 <= j < 10 -> lineBreakAt j n = false.
Proof.
  intros Hj. destruct (Z.eq_dec j 0) as [-> | Hne]; [reflexivity|].
  apply (no_break_inside_row n 0 j); lia.
Qed.

(** X2.  From thirty ports on, [Ports.Preview] shows the first thirty
    ports and no other, in three rows of ten followed by "...": in each
    row every port text is followed by ", ", a line break comes after
    the first and after the second row, and the last ", " is cut off.
    So two lists that agree on their first thirty ports have the same
    preview, whatever comes after and however long they are. *)
Theorem Ports_Preview_truncates (ps : netUtil.Ports) :
  (30 <= List.length ps)%nat ->
  Ports_Preview ps
  = Ret (separated (firstn 10 ps) ++ newline
         ++ separated (firstn 10 (skipn 10 ps)) ++ newline
         ++ concat ", " (map Port_String (firstn 10 (skipn 20 ps)))
         ++ "...")%string
  /\ forall ps' : netUtil.Ports,
       (30 <= List.length ps')%nat ->
       firstn 30 ps' = firstn 30 ps ->
       Ports_Preview ps' = Ports_Preview ps.
Proof.
  intros Hlen.
  assert (Hlong : forall qs : netUtil.Ports, (30 <= List.length qs)%nat ->
            Ports_Preview qs
            = (ret' <- (let r := previewLoop (Z.of_nat (List.length qs)) 0
                                             (firstn 30 qs) "" in
                        sliceTo r (len r - 2)) ;;
               Ret (ret' ++ "...")%string)).
  { intros qs Hq. unfold Ports_Preview.
    destruct (Z.ltb_spec (Z.of_nat (List.length qs)) maxPerLine) as [H | _];
      [unfold maxPerLine in H; lia | reflexivity]. }
  split.
  - rewrite (Hlong ps Hlen). cbv zeta.
    set (n := Z.of_nat (List.length ps)).
    set (a := firstn 10 ps).
    set (b := firstn 10 (skipn 10 ps)).
    set (c := firstn 10 (skipn 20 ps)).
    assert (Hsplit : firstn 30 ps = a ++ b ++ c).
    { unfold a, b, c. change 30%nat with (10 + (10 + 10))%nat.
      rewrite firstn_plus. f_equal. rewrite firstn_plus. f_equal.
      now rewrite skipn_skipn. }
    assert (Ha : List.length a = 10%nat)
      by (unfold a; rewrite length_firstn; lia).
    assert (Hb : List.length b = 10%nat)
      by (unfold b; rewrite length_firstn, length_skipn; lia).
    assert (Hc : List.length c = 10%nat)
      by (unfold c; rewrite length_firstn, length_skipn; lia).
    assert (Hloop : previewLoop n 0 (firstn 30 ps) ""
                    = ((separated a ++ newline ++ separated b ++ newline
                        ++ concat ", " (map Port_String c)) ++ ", ")%string).
    { rewrite Hsplit, !previewLoop_app, Ha, Hb.
      rewrite (previewLoop_without_breaks n a 0 "")
        by (intros j Hj; apply first_row_without_breaks; lia).
      change (0 + Z.of_nat 10) with (10 * 1).
      rewrite (previewLoop_row n 1 b) by (unfold n; lia).
      change (10 * 1 + Z.of_nat 10) with (10 * 2).
      rewrite (previewLoop_row n 2 c) by (unfold n; lia).
      rewrite (separated_concat c) by (destruct c; discriminate).
      cbn [append]. now rewrite !append_assoc. }
    rewrite Hloop. change 2 with (len ", "). rewrite sliceTo_append.
    cbn [bind]. now rewrite !append_assoc.
  - intros ps' Hlen' Hsame.
    rewrite (Hlong ps Hlen), (Hlong ps' Hlen'), Hsame.
    rewrite (previewLoop_ignores_length (Z.of_nat (List.length ps'))
               (Z.of_nat (List.length ps)) (firstn 30 ps) 0 "")
      by (try rewrite length_firstn; lia).
    reflexivity.
Qed.

End PortsText.

Lemma Ports_Preview_truncates_witness :
  let ps := map (fun n => netUtil.NewPort (Z.of_nat n) "tcp") (seq 1 32) in
  (30 <= List.length ps)%nat
  /\ netUtil.Ports_Preview ps
     = Ret ("1/tcp, 2/tcp, 3/tcp, 4/tcp, 5/tcp, 6/tcp, 7/tcp, 8/tcp, "
            ++ "9/tcp, 10/tcp, " ++ netUtil.newline
            ++ "11/tcp, 12/tcp, 13/tcp, 14/tcp, 15/tcp, 16/tcp, 17/tcp, "
            ++ "18/tcp, 19/tcp, 20/tcp, " ++ netUtil.newline
            ++ "21/tcp, 22/tcp, 23/tcp, 24/tcp, 25/tcp, 26/tcp, 27/tcp, "
            ++ "28/tcp, 29/tcp, 30/tcp...")%string.
Proof.
  cbv zeta.
  assert (H : (30 <= List.length
                 (map (fun n => netUtil.NewPort (Z.of_nat n) "tcp")
                    (seq 1 32)))%nat) by (vm_compute; lia).
  split; [exact H|].
  rewrite (proj1 (Ports_Preview_truncates _ H)). reflexivity.
Defined.

(** ** Targets as text, and their round-trip times *)

Section TargetText.

Import netUtil pScan.

Local Open Scope list_scope.

(** X3.  [Target.String] and [Target.ColorString] return exactly for
    targets with at least one port: both evaluate [t.Ports.Preview()] as
    an argument, so a target with an empty port list makes them panic. *)
Theorem Target_texts_need_ports (x : Texts) (c : ColorFmt) (w : World)
        (t : Target) :
  (returns (Target_String x w t) = true <-> Ports t <> [])
  /\ (returns (Target_ColorString x c w t) = true <-> Ports t <> [])
  /\ (Ports t = [] ->
      Target_String x w t = Panic /\ Target_ColorString x c w t = Panic).
Proof.
  unfold Target_String, Target_ColorString.
  destruct (Ports t) as [|p ps] eqn:E.
  - cbn. repeat split; try discriminate; try congruence.
  - pose proof (Ports_Preview_nonempty (p :: ps) ltac:(discriminate)) as Hp.
    destruct (Ports_Preview (p :: ps)) as [s| |]; try discriminate Hp.
    cbn. repeat split; try discriminate; try reflexivity.
Qed.

Lemma int64_small (z : Z) : - 2 ^ 63 <= z < 2 ^ 63 -> int64 z = z.
Proof.
  intros H. unfold int64. rewrite Z.mod_small; lia.
Qed.

Lemma sum_bounds (lo hi : Z) (rs : list Z) :
  (forall r, In r rs -> lo <= r <= hi) ->
  lo * Z.of_nat (List.length rs) <= fold_right Z.add 0 rs
  <= hi * Z.of_nat (List.length rs).
Proof.
  induction rs as [|r rs IH]; intros H; [cbn; lia|].
  assert (Hr : lo <= r <= hi) by (apply H; now left).
  assert (IH' := IH (fun r0 Hin => H r0 (or_intror Hin))).
  cbn [fold_right List.length]. lia.
Qed.

Lemma AvgRtt_sum (rs : list Z) :
  forall acc : Z,
    0 <= acc ->
    (forall r, In r rs -> 0 <= r) ->
    acc + fold_right Z.add 0 rs < 2 ^ 63 ->
    fold_left (fun avgNS rtt => int64 (avgNS + rtt)) rs acc
    = acc + fold_right Z.add 0 rs.
Proof.
  induction rs as [|r rs IH]; intros acc Hacc Hpos Hsum; cbn [fold_left fold_right].
  - lia.
  - assert (Hr : 0 <= r) by (apply Hpos; now left).
    assert (Hrest : 0 <= fold_right Z.add 0 rs).
    { clear - Hpos. induction rs as [|a rs IHr]; cbn; [lia|].
      assert (0 <= a) by (apply Hpos; right; now left).
      assert (0 <= fold_right Z.add 0 rs).
      { apply IHr. intros r0 [-> | Hin]; apply Hpos;
          [now left | right; now right]. }
      lia. }
    cbn [fold_right] in Hsum.
    rewrite int64_small by lia.
    rewrite IH; [lia | lia | | lia].
    intros r0 Hin. apply Hpos. now right.
Qed.

(** X4.  With round-trip times between [lo >= 0] and [hi] whose sum
    fits [int64], [AvgRtt] is the truncated quotient of one more than
    their sum by their number: it lies between [lo] and [hi + 1], is at
    most [hi] from two samples on, and for a single sample [r] it is
    [r + 1].  It is never the -1 that stands for "no samples". *)
Theorem AvgRtt_bounds (t : Target) (lo hi : Z) :
  Rtts t <> [] ->
  0 <= lo ->
  (forall r, In r (Rtts t) -> lo <= r <= hi) ->
  (hi + 1) * Z.of_nat (List.length (Rtts t)) < 2 ^ 63 ->
  AvgRtt t = (1 + fold_right Z.add 0 (Rtts t)) / Z.of_nat (List.length (Rtts t))
  /\ lo <= AvgRtt t <= hi + 1
  /\ ((2 <= List.length (Rtts t))%nat -> AvgRtt t <= hi)
  /\ (forall r, Rtts t = [r] -> AvgRtt t = r + 1)
  /\ AvgRtt t <> -1.
Proof.
  intros Hne Hlo Hin Hfit. unfold AvgRtt.
  destruct (Rtts t) as [|r0 rs] eqn:E; [congruence|].
  set (l := r0 :: rs) in *.
  set (n := Z.of_nat (List.length l)) in *.
  assert (Hn : 1 <= n) by (unfold n, l; cbn [List.length]; lia).
  pose proof (sum_bounds lo hi l Hin) as [Hs1 Hs2]. fold n in Hs1, Hs2.
  set (sum := fold_right Z.add 0 l) in *.
  assert (Hhi : lo <= hi).
  { destruct (Hin r0) as [? ?]; [now left | lia]. }
  rewrite AvgRtt_sum; fold sum; try lia.
  2: { intros r Hr. destruct (Hin r Hr). lia. }
  rewrite int64_small by nia.
  rewrite Z.quot_div_nonneg by nia.
  assert (Hlow : lo <= (1 + sum) / n) by (apply Z.div_le_lower_bound; nia).
  assert (Hup : (1 + sum) / n <= hi + 1) by (apply Z.div_le_upper_bound; nia).
  split; [reflexivity|]. split; [lia|]. split; [|split].
  - intros H2. assert (2 <= n) by (unfold n; lia).
    assert ((1 + sum) / n < hi + 1) by (apply Z.div_lt_upper_bound; nia).
    lia.
  - intros r Hr. unfold sum, n. rewrite Hr. cbn [fold_right List.length].
    rewrite Z.div_1_r. lia.
  - lia.
Qed.

Lemma AvgRtt_bounds_witness :
  let t := setRtts sampleTarget [1000; 3000; 2000] in
  AvgRtt t = 2000 /\ 1000 <= AvgRtt t <= 3001 /\ AvgRtt t <> -1.
Proof.
  cbv zeta.
  destruct (AvgRtt_bounds (setRtts sampleTarget [1000; 3000; 2000])
              1000 3000) as (Heq & Hb & _ & _ & Hne).
  - discriminate.
  - lia.
  - cbn [Rtts setRtts]. intros r [<- | [<- | [<- | []]]]; lia.
  - cbn. lia.
  - split; [|split; assumption]. rewrite Heq. reflexivity.
Defined.

End TargetText.

(** ** What a scan leaves behind *)

Section ScanOutcome.

Import netUtil pScan.

Local Open Scope list_scope.

Variable w : World.

Lemma held_app (a b : list event) : held (a ++ b) = held a + held b.
Proof.
  induction a as [|e a IH]; [reflexivity|].
  destruct e; cbn [app held]; rewrite IH; lia.
Qed.

Lemma subseq_In {A : Type} (l m : list A) (x : A) :
  subseq l m -> In x l -> In x m.
Proof.
  induction 1 as [|a l m _ IH|a l m _ IH]; intros Hin.
  - exact Hin.
  - right. now apply IH.
  - destruct Hin as [-> | Hin]; [now left | right; now apply IH].
Qed.

Lemma subseq_length {A : Type} (l m : list A) :
  subseq l m -> (List.length l <= List.length m)%nat.
Proof.
  induction 1; cbn [List.length]; lia.
Qed.

Lemma subseq_NoDup {A : Type} (l m : list A) :
  subseq l m -> NoDup m -> NoDup l.
Proof.
  induction 1 as [|a l m Hs IH|a l m Hs IH]; intros Hnd.
  - constructor.
  - inversion Hnd; subst. now apply IH.
  - inversion Hnd as [|? ? Hnotin Hnd']; subst. constructor.
    + intros Hin. apply Hnotin. now apply (subseq_In l m).
    + now apply IH.
Qed.

Lemma classified_merge (acc pI : PortResults) :
  Permutation (classified (merge acc pI)) (classified acc ++ classified pI).
Proof.
  unfold classified, merge. cbn [Open Closed Filtered].
  repeat rewrite <- app_assoc. apply Permutation_app_head.
  etransitivity; [apply Permutation_app_swap_app|].
  apply Permutation_app_head.
  rewrite (app_assoc (Open pI) (Closed pI)).
  rewrite (app_assoc (Open pI) (Closed pI)).
  etransitivity; [apply Permutation_app_swap_app|].
  reflexivity.
Qed.

(** One call of [scanPort]: it either sends its result once or starts
    the probe again, it releases what it acquired, and its result holds
    the probed port at most once and no other port. *)
Lemma scanPort_shape (t : Target) (p : Port) (d : dialed) :
  let r := scanPort w t p d in
  prSent r = negb (prAgain r)
  /\ sends (prTrace r) = (if prAgain r then 0 else 1)%nat
  /\ held (prTrace r) = 0
  /\ (classified (prRes r) = [] \/ classified (prRes r) = [p])
  /\ (prAgain r = true -> prTarget r = t).
Proof.
  cbv zeta. destruct d as [|err].
  - cbn. repeat split; auto; discriminate.
  - unfold scanPort. destruct (isOpError err).
    2: { cbn. repeat split; auto; discriminate. }
    destruct (strings.HasSuffix (Error err) tooManyOpenFiles) eqn:He.
    + rewrite (exhausted_not_refused _ He), (exhausted_not_timeout _ He).
      cbn. repeat split; auto.
      intros _.
      match goal with |- (if ?b then _ else _) = _ => destruct b end;
        reflexivity.
    + destruct (isRefused (Error err)) eqn:Hr.
      * rewrite (refused_not_timeout _ Hr). cbn.
        repeat split; auto; discriminate.
      * destruct (strings.HasSuffix (Error err) ioTimeout); cbn;
          repeat split; auto; discriminate.
Qed.

(** What one call of [scanPort] does to the status of a target whose
    status is one of the three named values. *)
Lemma scanPort_evidence (t : Target) (p : Port) (d : dialed) :
  validStatus (Status t) ->
  let r := scanPort w t p d in
  validStatus (Status (prTarget r))
  /\ evidence (Status t) <= evidence (Status (prTarget r))
  /\ (Open (prRes r) <> [] \/ Closed (prRes r) <> [] ->
      Status (prTarget r) = Online)
  /\ (Filtered (prRes r) <> [] -> Status (prTarget r) <> Unknown).
Proof.
  intros Hv. cbv zeta.
  destruct t as [hn v ip mac it st loc ps rt]. cbn [Status] in *.
  destruct d as [|err].
  - cbn. unfold validStatus, evidence. cbn.
    destruct Hv as [-> | [-> | ->]]; cbn; repeat split; auto; try lia;
      discriminate.
  - unfold scanPort. cbn [isOpError Error Status setStatus].
    destruct (isOpError err).
    2: { cbn. repeat split; auto; try lia;
         try (intros [H | H]; congruence); congruence. }
    destruct (isRefused (Error err)) eqn:Hr;
      [rewrite (refused_not_timeout _ Hr)|];
      destruct (strings.HasSuffix (Error err) ioTimeout) eqn:Ht;
      destruct (strings.HasSuffix (Error err) tooManyOpenFiles);
      destruct Hv as [-> | [-> | ->]]; cbn;
      unfold validStatus, evidence; cbn;
      repeat split; auto; try lia;
      try (intros [H | H]; congruence); try congruence; try discriminate.
Qed.

(** A probe that returns has returned from a call of [scanPort] that did
    not start it again, made on the target as it was given. *)
Lemma probe_last_call (fuel : nat) (p : Port) :
  forall (attempt : nat) (t : Target) (r : Target * PortResults),
    result (probe w fuel attempt t p) = Ret r ->
    exists d, prAgain (scanPort w t p d) = false
              /\ r = (prTarget (scanPort w t p d), prRes (scanPort w t p d)).
Proof.
  induction fuel as [|fuel IH]; intros attempt t r H; [discriminate H|].
  cbn [probe] in H. rewrite mbind_emits in H. cbn [result snd] in H.
  destruct (prAgain (scanPort w t p (DialTimeout w (dialAddress w t p) attempt)))
    eqn:Ha.
  - destruct (scanPort_shape t p (DialTimeout w (dialAddress w t p) attempt))
      as (_ & _ & _ & _ & Hsame).
    rewrite (Hsame Ha) in H. now apply IH in H.
  - cbn in H. injection H as <-. eexists. split; [exact Ha | reflexivity].
Qed.

Lemma probe_sends (fuel : nat) (p : Port) :
  forall (attempt : nat) (t : Target) (r : Target * PortResults),
    result (probe w fuel attempt t p) = Ret r ->
    sends (trace (probe w fuel attempt t p)) = 1%nat.
Proof.
  induction fuel as [|fuel IH]; intros attempt t r H; [discriminate H|].
  cbn [probe] in *. rewrite mbind_emits in *. cbn [result trace fst snd] in *.
  rewrite sends_app.
  destruct (scanPort_shape t p (DialTimeout w (dialAddress w t p) attempt))
    as (_ & Hs & _). rewrite Hs.
  destruct (prAgain _).
  - now rewrite (IH _ _ _ H).
  - reflexivity.
Qed.

(** The receiving loop, when it ends: one result was sent per port, the
    target differs from the one given in its status at most, the ports
    classified are some of the ports probed, and the status has followed
    the evidence. *)
Lemma collectPorts_outcome (fuel : nat) (ps : list Port) :
  forall (t : Target) (acc : PortResults) (r : Target * PortResults),
    result (collectPorts w fuel t ps acc) = Ret r ->
    sends (trace (collectPorts w fuel t ps acc)) = List.length ps
    /\ fst r = setStatus t (Status (fst r))
    /\ (exists l, subseq l ps
                  /\ Permutation (classified (snd r)) (classified acc ++ l))
    /\ (validStatus (Status t) ->
        validStatus (Status (fst r))
        /\ evidence (Status t) <= evidence (Status (fst r))
        /\ ((Open acc <> [] \/ Closed acc <> [] -> Status t = Online) ->
            Open (snd r) <> [] \/ Closed (snd r) <> [] ->
            Status (fst r) = Online)
        /\ ((classified acc <> [] -> Status t <> Unknown) ->
            classified (snd r) <> [] -> Status (fst r) <> Unknown)).
Proof.
  induction ps as [|p ps IH]; intros t acc r H.
  - cbn in H. injection H as <-. cbn [fst snd].
    split; [reflexivity|]. split; [now destruct t|].
    split.
    + exists []. split; [constructor | now rewrite app_nil_r].
    + intros Hv. split; [exact Hv|]. split; [lia|]. split; auto.
  - cbn [collectPorts] in *.
    pose proof H as H'.
    apply result_bind_Ret in H'. destruct H' as (r1 & Hone & Hrest).
    rewrite (trace_bind_Ret _ _ r1 Hone), sends_app.
    rewrite (probe_sends _ _ _ _ _ Hone).
    destruct (IH _ _ _ Hrest) as (Hsends & Hsame & (l & Hsub & Hperm) & Hst).
    rewrite Hsends.
    destruct (probe_last_call _ _ _ _ _ Hone) as (d & Hlast & ->).
    cbn [fst snd] in *.
    set (c := scanPort w t p d) in *.
    destruct (scanPort_shape t p d) as (_ & _ & _ & Hcl & _). fold c in Hcl.
    pose proof (scanPort_writes_status_only w t p d) as Hw. fold c in Hw.
    split; [reflexivity|]. split.
    { rewrite Hsame, Hw. reflexivity. }
    split.
    { destruct Hcl as [Hnone | Hp].
      - exists l. split; [now constructor|].
        rewrite Hperm, (classified_merge acc (prRes c)), Hnone.
        now rewrite app_nil_r.
      - exists (p :: l). split; [now constructor|].
        rewrite Hperm, (classified_merge acc (prRes c)), Hp.
        now rewrite <- app_assoc. }
    intros Hv.
    destruct (scanPort_evidence t p d Hv) as (Hv1 & He1 & Hon1 & Hf1).
    fold c in Hv1, He1, Hon1, Hf1.
    destruct (Hst Hv1) as (Hv2 & He2 & Hon2 & Hf2).
    split; [exact Hv2|]. split; [lia|]. split.
    + intros Hacc. apply Hon2.
      unfold merge. cbn [Open Closed].
      intros [Ho | Hc].
      * destruct (Open (prRes c)) eqn:Eo.
        -- rewrite app_nil_r in Ho.
           destruct (Closed (prRes c)) eqn:Ec.
           ++ assert (Status t = Online) by (apply Hacc; now left).
              destruct Hv1 as [? | [E | E]]; [assumption | |];
                unfold evidence in He1; rewrite H0, E in He1; cbn in He1; lia.
           ++ apply Hon1. right. discriminate.
        -- apply Hon1. left. discriminate.
      * destruct (Closed (prRes c)) eqn:Ec.
        -- rewrite app_nil_r in Hc.
           destruct (Open (prRes c)) eqn:Eo.
           ++ assert (Status t = Online) by (apply Hacc; now right).
              destruct Hv1 as [? | [E | E]]; [assumption | |];
                unfold evidence in He1; rewrite H0, E in He1; cbn in He1; lia.
           ++ apply Hon1. left. discriminate.
        -- apply Hon1. right. discriminate.
    + intros Hacc. apply Hf2. intros Hm Hunk.
      assert (Hm' : classified acc <> [] \/ classified (prRes c) <> []).
      { destruct (classified acc) eqn:Ea; [|left; discriminate].
        right. intros Hc. apply Hm.
        apply Permutation_nil. symmetry.
        rewrite (classified_merge acc (prRes c)), Ea, Hc. reflexivity. }
      destruct Hm' as [Ha | Hc].
      * apply (Hacc Ha).
        destruct Hv as [E | [E | E]]; [ | | exact E];
          unfold evidence in He1; rewrite Hunk, E in He1; cbn in He1; lia.
      * unfold classified in Hc.
        destruct (Open (prRes c)) eqn:Eo.
        -- destruct (Closed (prRes c)) eqn:Ec.
           ++ cbn in Hc. apply (Hf1 Hc Hunk).
           ++ rewrite Hon1 in Hunk; [discriminate | right; discriminate].
        -- rewrite Hon1 in Hunk; [discriminate | left; discriminate].
Qed.

End ScanOutcome.

Section TargetScan.

Import netUtil pScan.

Local Open Scope list_scope.

Variable w : World.
Variable sched : Schedule.

Lemma mbind_emit {A : Type} (e : event) (k : M A) :
  (emit e ;;; k) = (e :: trace k, result k).
Proof. reflexivity. Qed.

Lemma spawn_events_quiet (ps : list Port) :
  held (map EvGoScanPort ps) = 0 /\ sends (map EvGoScanPort ps) = 0%nat.
Proof.
  induction ps as [|p ps [IHh IHs]]; [split; reflexivity|].
  split; [exact IHh | exact IHs].
Qed.

Lemma scanBody_inv (fuel : nat) (t : Target) (r : ScanResult) :
  result (scanBody w sched fuel t) = Ret r ->
  exists done,
    result (collectPorts w fuel t (completion sched _ (Ports t))
                         NewPortResults) = Ret done
    /\ r = mkScanResult (fst done) (now w) (now w) (snd done)
    /\ trace (scanBody w sched fuel t)
       = map EvGoScanPort (Ports t)
         ++ trace (collectPorts w fuel t (completion sched _ (Ports t))
                                NewPortResults).
Proof.
  unfold scanBody. rewrite mbind_emits. cbn [result trace fst snd].
  intros H. apply result_bind_Ret in H. destruct H as (done & Hdone & H).
  cbn in H. injection H as <-. exists done.
  split; [exact Hdone|]. split; [reflexivity|].
  change (srPorts (NewScanResult t (now w))) with NewPortResults.
  rewrite (trace_bind_Ret _ _ done Hdone). cbn. now rewrite app_nil_r.
Qed.

(** X5.  When [Target.Scan] returns, exactly one result was sent on
    the channel for each port of the target, however often a probe was
    started again, and the target in the result is the target scanned
    with nothing but its status rewritten. *)
Theorem Target_Scan_accounting (fuel : nat) (t : Target) (r : ScanResult) :
  fair sched ->
  result (Target_Scan w sched fuel t) = Ret r ->
  sends (trace (Target_Scan w sched fuel t)) = List.length (Ports t)
  /\ srTarget r = setStatus t (Status (srTarget r)).
Proof.
  intros Hfair Hr. unfold Target_Scan in *. rewrite mbind_emit in *.
  cbn [result snd trace fst] in *.
  destruct (scanBody_inv fuel t r Hr) as (done & Hdone & -> & Htr).
  destruct (collectPorts_outcome w fuel _ _ _ _ Hdone)
    as (Hsends & Hsame & _).
  split.
  - change (sends (EvNewWeighted (governorLimit w)
                    :: trace (scanBody w sched fuel t)))
      with (sends (trace (scanBody w sched fuel t))).
    rewrite Htr, sends_app, Hsends.
    destruct (spawn_events_quiet (Ports t)) as [_ ->].
    apply Permutation_length. apply Hfair.
  - exact Hsame.
Qed.

(** X6.  When [Target.Scan] returns, the ports its result classifies
    are ports of the target, no more of them than the target has, and if
    the target lists no port twice then no port is classified twice:
    no port is in two of [Open], [Closed], [Filtered], nor twice in
    one. *)
Theorem Target_Scan_classifies_ports (fuel : nat) (t : Target)
        (r : ScanResult) :
  fair sched ->
  result (Target_Scan w sched fuel t) = Ret r ->
  (forall p, In p (classified (srPorts r)) -> In p (Ports t))
  /\ (List.length (classified (srPorts r)) <= List.length (Ports t))%nat
  /\ (NoDup (Ports t) -> NoDup (classified (srPorts r))).
Proof.
  intros Hfair Hr. unfold Target_Scan in Hr. rewrite mbind_emit in Hr.
  cbn [result snd] in Hr.
  destruct (scanBody_inv fuel t r Hr) as (done & Hdone & -> & _).
  destruct (collectPorts_outcome w fuel _ _ _ _ Hdone)
    as (_ & _ & (l & Hsub & Hperm) & _).
  cbn [srPorts]. cbn [classified NewPortResults Open Closed Filtered app]
    in Hperm.
  change (Open (snd done) ++ Closed (snd done) ++ Filtered (snd done))
    with (classified (snd done)) in Hperm.
  pose proof (Hfair _ (Ports t)) as Hp.
  split; [|split].
  - intros p Hin. apply (Permutation_in _ Hp).
    apply (subseq_In l _ p Hsub). now apply (Permutation_in _ Hperm).
  - rewrite (Permutation_length Hperm), <- (Permutation_length Hp).
    now apply subseq_length.
  - intros Hnd. apply (Permutation_NoDup (Permutation_sym Hperm)).
    apply (subseq_NoDup l _ Hsub).
    apply (Permutation_NoDup (Permutation_sym Hp) Hnd).
Qed.


End TargetScan.

Lemma Target_Scan_accounting_witness :
  let w0 := pScan.twiceExhausted in
  let scan := pScan.Target_Scan w0 pScan.fifo 3 pScan.sampleTarget in
  pScan.fair pScan.fifo
  /\ (exists r, pScan.result scan = Ret r)
  /\ pScan.sleeps (pScan.trace scan) = [pScan.timeOut; pScan.timeOut]
  /\ pScan.sends (pScan.trace scan) = 1%nat.
Proof.
  cbv zeta. split; [exact fair_fifo|]. split; [eexists; reflexivity|].
  split; [reflexivity|].
  exact (proj1 (Target_Scan_accounting pScan.twiceExhausted pScan.fifo 3
                  pScan.sampleTarget _ fair_fifo eq_refl)).
Defined.

Lemma Target_Scan_classifies_ports_witness :
  let w0 := pScan.sampleWorld (fun _ _ => pScan.Failed (pScan.refusedError true)) in
  let r := pScan.mkScanResult (pScan.setStatus pScan.sampleTarget pScan.Online) 0 0
             (pScan.mkPortResults [] [netUtil.NewPort 80 "tcp"] []) in
  pScan.result (pScan.Target_Scan w0 pScan.fifo 1 pScan.sampleTarget) = Ret r
  /\ NoDup (pScan.classified (pScan.srPorts r)).
Proof.
  cbv zeta. split; [reflexivity|].
  destruct (Target_Scan_classifies_ports
              (pScan.sampleWorld (fun _ _ => pScan.Failed (pScan.refusedError true)))
              pScan.fifo 1 pScan.sampleTarget _ fair_fifo eq_refl)
    as (_ & _ & Hnd).
  apply Hnd. cbn. constructor; [intros [] | constructor].
Defined.


(** ** Scans of several targets *)

Section TargetsScan.

Import netUtil pScan.

Local Open Scope list_scope.

Variable w : World.
Variable sched : Schedule.

Lemma dispatch_filter (ts : Targets) :
  dispatch ts = (filter (fun t => isNil (IPAddr t)) ts,
                 filter (fun t => negb (isNil (IPAddr t))) ts).
Proof.
  induction ts as [|t ts IH]; [reflexivity|].
  cbn [dispatch filter]. rewrite IH.
  destruct (IPAddr t); reflexivity.
Qed.

Lemma scan_events_quiet (ts : list Target) :
  held (map EvGoScan ts) = 0 /\ sends (map EvGoScan ts) = 0%nat.
Proof.
  induction ts as [|t ts [IHh IHs]]; [split; reflexivity|].
  split; [exact IHh | exact IHs].
Qed.

Lemma Target_scan_outcome (fuel : nat) (t : Target) (r : ScanResult) :
  fair sched ->
  result (Target_scan w sched fuel t) = Ret r ->
  srTarget r = setStatus t (Status (srTarget r))
  /\ sends (trace (Target_scan w sched fuel t)) = List.length (Ports t).
Proof.
  intros Hfair H. unfold Target_scan in *.
  pose proof H as H'.
  apply result_bind_Ret in H'. destruct H' as (r' & Hbody & H').
  cbn in H'. injection H' as <-.
  rewrite (trace_bind_Ret _ _ r' Hbody), sends_app.
  destruct (scanBody_inv w sched fuel t r' Hbody) as (done & Hdone & -> & Htr).
  destruct (collectPorts_outcome w fuel _ _ _ _ Hdone)
    as (Hsends & Hsame & _).
  split; [exact Hsame|].
  rewrite Htr, sends_app, Hsends.
  destruct (spawn_events_quiet (Ports t)) as [_ ->].
  cbn. rewrite Nat.add_0_r.
  apply Permutation_length. apply Hfair.
Qed.

(** The receiving loop of [Targets.Scan], when it ends: one scan result
    per target scanned, in the order of completion, each for its target
    with the status rewritten at most; one port result was sent for every
    port of every target. *)
Lemma collectScans_outcome (fuel : nat) (ts : list Target) :
  fair sched ->
  forall rs : list ScanResult,
    result (collectScans w sched fuel ts) = Ret rs ->
    Forall2 (fun t r => srTarget r = setStatus t (Status (srTarget r))) ts rs
    /\ sends (trace (collectScans w sched fuel ts))
       = List.length (flat_map Ports ts).
Proof.
  intros Hfair. induction ts as [|t ts IH]; intros rs H.
  - cbn in H. injection H as <-. split; [constructor | reflexivity].
  - cbn [collectScans] in *.
    pose proof H as H'.
    apply result_bind_Ret in H'. destruct H' as (r1 & Hone & H').
    pose proof H' as H''.
    apply result_bind_Ret in H''. destruct H'' as (rs1 & Hrest & H'').
    cbn in H''. injection H'' as <-.
    destruct (Target_scan_outcome fuel t r1 Hfair Hone) as (Hsame & Hs1).
    destruct (IH _ Hrest) as (Hall & Hs).
    split; [now constructor|].
    rewrite (trace_bind_Ret _ _ r1 Hone), sends_app, Hs1.
    rewrite (trace_bind_Ret _ _ rs1 Hrest), sends_app, Hs.
    cbn [flat_map]. rewrite length_app. cbn. lia.
Qed.

(** X10.  [Targets.Scan] accounts for every target it is given.  When
    it returns, [Unresolved] holds the targets without an address, in
    the order given and unchanged; [Resolved] holds one result for each
    target with an address, in the order the scans complete, each for
    its target with nothing but the status rewritten; so the two lists
    together are as long as the input.  One port result was sent for
    every port of every target with an address. *)
Theorem Targets_Scan_accounting (fuel : nat) (ts : Targets)
        (res : MultiScanResult) :
  fair sched ->
  result (Targets_Scan w sched fuel ts) = Ret res ->
  Unresolved res = filter (fun t => isNil (IPAddr t)) ts
  /\ (exists scanned,
        Permutation scanned
          (filter (fun t => negb (isNil (IPAddr t))) ts)
        /\ Forall2 (fun t r =>
                      srTarget r = setStatus t (Status (srTarget r)))
                   scanned (Resolved res))
  /\ (List.length (Resolved res) + List.length (Unresolved res))%nat
     = List.length ts
  /\ sends (trace (Targets_Scan w sched fuel ts))
     = List.length
         (flat_map Ports
            (filter (fun t => negb (isNil (IPAddr t))) ts)).
Proof.
  intros Hfair. unfold Targets_Scan. rewrite mbind_emit, mbind_emits.
  cbv zeta. rewrite dispatch_filter. cbn [fst snd trace result].
  set (unres := filter (fun t => isNil (IPAddr t)) ts).
  set (res0 := filter (fun t => negb (isNil (IPAddr t))) ts).
  set (scanned := completion sched Target res0).
  assert (Hperm : Permutation scanned res0) by apply Hfair.
  intros H.
  apply result_bind_Ret in H. destruct H as (rs & Hscans & H).
  cbn in H. injection H as <-. cbn [Unresolved Resolved].
  destruct (collectScans_outcome fuel scanned Hfair rs Hscans)
    as (Hall & Hs).
  split; [reflexivity|]. split; [exists scanned; split; assumption|].
  split.
  - rewrite <- (Forall2_length Hall), (Permutation_length Hperm).
    unfold res0, unres. clear.
    induction ts as [|t ts IH]; [reflexivity|].
    cbn [filter]. destruct (isNil (IPAddr t)); cbn [negb List.length]; lia.
  - change (sends (EvNewWeighted (governorLimit w)
                    :: map EvGoScan res0
                    ++ trace (resolved <~ collectScans w sched fuel scanned ;;
                              ret (mkMultiScanResult resolved unres))))
      with (sends (map EvGoScan res0
                   ++ trace (resolved <~ collectScans w sched fuel scanned ;;
                             ret (mkMultiScanResult resolved unres)))).
    rewrite sends_app. destruct (scan_events_quiet res0) as [_ ->].
    rewrite (trace_bind_Ret _ _ rs Hscans), sends_app, Hs.
    cbn. rewrite Nat.add_0_r.
    apply Permutation_length. now apply Permutation_flat_map.
Qed.

End TargetsScan.

Lemma Targets_Scan_accounting_witness :
  let unresolved := pScan.mkTarget "" "" None None "nohost.invalid"
                      pScan.OfflineFiltered pScan.UnknownLoc
                      [netUtil.NewPort 80 "tcp"] [] in
  let ts := [unresolved; pScan.sampleTarget; unresolved] in
  let scan := pScan.Targets_Scan pScan.lanWorld pScan.fifo 1 ts in
  pScan.fair pScan.fifo
  /\ (exists res, pScan.result scan = Ret res
                  /\ pScan.Unresolved res = [unresolved; unresolved]
                  /\ List.length (pScan.Resolved res) = 1%nat)
  /\ pScan.sends (pScan.trace scan) = 1%nat.
Proof.
  cbv zeta. split; [exact fair_fifo|].
  destruct (Targets_Scan_accounting pScan.lanWorld pScan.fifo 1
              [pScan.mkTarget "" "" None None "nohost.invalid"
                 pScan.OfflineFiltered pScan.UnknownLoc
                 [netUtil.NewPort 80 "tcp"] [];
               pScan.sampleTarget;
               pScan.mkTarget "" "" None None "nohost.invalid"
                 pScan.OfflineFiltered pScan.UnknownLoc
                 [netUtil.NewPort 80 "tcp"] []] _ fair_fifo eq_refl)
    as (Hu & _ & _ & Hs).
  split; [|exact Hs].
  eexists. split; [reflexivity|]. split; [exact Hu | reflexivity].
Defined.

(** ** What construction leaves behind *)

Section ConstructionOutcome.

Import netUtil pScan.

Local Open Scope list_scope.

Variable h : Helper.
Variable w : World.

Ltac silence :=
  repeat first
    [ apply silent_ret
    | apply silent_lift
    | apply silent_emit; reflexivity
    | apply silent_emits; apply existsb_map_false; reflexivity
    | apply silent_bind; [|intros]
    | match goal with
      | |- silent _ (match ?x with _ => _ end) => destruct x
      end ].

Lemma held_silent (tr : list event) :
  existsb isWeight tr = false -> held tr = 0.
Proof.
  induction tr as [|e tr IH]; [reflexivity|].
  destruct e; cbn; try exact IH; discriminate.
Qed.

Lemma construct_no_weight (t : string) (ports : netUtil.Ports) (priv : bool) :
  silent isWeight (construct h w t ports priv).
Proof.
  unfold construct, Resolve, Ping, QueryMac, activeArp, LookUpVendor.
  silence.
Qed.

(** The fields [Resolve] leaves alone, and what it does to the others. *)
Lemma Resolve_frame (t t' : Target) :
  result (Resolve h w t) = Ret t' ->
  InitialTarget t' = InitialTarget t
  /\ Ports t' = Ports t
  /\ Vendor t' = Vendor t
  /\ Location t' = Location t
  /\ MACAddr t' = MACAddr t
  /\ (Status t' = Status t \/ Status t' = OfflineFiltered).
Proof.
  unfold Resolve. intros H.
  destruct (ValidateIPOrRange h (InitialTarget t)).
  - apply result_bind_Ret in H. destruct H as (_ & _ & H).
    apply result_bind_Ret in H. destruct H as (t1 & H1 & H).
    cbn in H. injection H as <-.
    destruct (LookupAddr w (InitialTarget t)) as [names|].
    + apply result_bind_Ret in H1. destruct H1 as (n & _ & H1).
      cbn in H1. injection H1 as <-. cbn. auto 10.
    + cbn in H1. injection H1 as <-. cbn. auto 10.
  - apply result_bind_Ret in H. destruct H as (_ & _ & H).
    destruct (LookupIP w (InitialTarget t)) as [ips|].
    + apply result_bind_Ret in H. destruct H as (ip & _ & H).
      apply result_bind_Ret in H. destruct H as (_ & _ & H).
      destruct (LookupAddr w _) as [names|].
      * apply result_bind_Ret in H. destruct H as (n & _ & H).
        cbn in H. injection H as <-. cbn. auto 10.
      * cbn in H. injection H as <-. cbn. auto 10.
    + cbn in H. injection H as <-. cbn. auto 10.
Qed.

Lemma activeArp_sets (t t' : Target) :
  result (activeArp w t) = Ret t' ->
  InitialTarget t' = InitialTarget t
  /\ Ports t' = Ports t
  /\ IPAddr t' = IPAddr t
  /\ validLocation (Location t')
  /\ (MACAddr t' <> None -> Location t' = Local)
  /\ (Status t' = Status t \/ Status t' = Online).
Proof.
  unfold activeArp, validLocation.
  destruct (arpProbe w (IPAddr t)) as [| | | |[hw|]];
    try destruct (isZeroMAC hw); cbn; intros H; injection H as <-; cbn;
    repeat split; auto; congruence.
Qed.

Lemma QueryMac_sets (t t' : Target) :
  result (QueryMac w t) = Ret t' ->
  InitialTarget t' = InitialTarget t
  /\ Ports t' = Ports t
  /\ IPAddr t' = IPAddr t
  /\ validLocation (Location t')
  /\ (MACAddr t' <> None -> Location t' = Local)
  /\ (Status t' = Status t \/ Status t' = Online).
Proof.
  unfold QueryMac. intros H.
  apply result_bind_Ret in H. destruct H as (_ & _ & H).
  assert (Hcache :
            result (emit (EvArpCache (IP_String w (IPAddr t))) ;;;
                    match ParseMAC w (arpCacheSearch w (IP_String w (IPAddr t)))
                    with
                    | Some mac =>
                        if negb (isZeroMAC mac)
                        then ret (setMACAddr (setLocation t Local) (Some mac))
                        else activeArp w t
                    | None => activeArp w t
                    end) = Ret t' ->
            InitialTarget t' = InitialTarget t
            /\ Ports t' = Ports t
            /\ IPAddr t' = IPAddr t
            /\ validLocation (Location t')
            /\ (MACAddr t' <> None -> Location t' = Local)
            /\ (Status t' = Status t \/ Status t' = Online)).
  { clear H. intros H.
    apply result_bind_Ret in H. destruct H as (_ & _ & H).
    destruct (ParseMAC w _) as [mac|]; [|now apply activeArp_sets].
    destruct (isZeroMAC mac); cbn [negb] in H; [now apply activeArp_sets|].
    cbn in H. injection H as <-. unfold validLocation. cbn.
    repeat split; auto. }
  destruct (isHost w (IPAddr t)) as [| |hw]; [now apply Hcache.. |].
  cbn in H. injection H as <-. unfold validLocation. cbn.
  repeat split; auto.
Qed.

Lemma LookUpVendor_sets (t t' : Target) :
  result (LookUpVendor w t) = Ret t' ->
  t' = setVendor t (Vendor t')
  /\ (MACAddr t = None -> Vendor t' = "N/A").
Proof.
  unfold LookUpVendor. destruct (MACAddr t) as [mac|].
  - destruct (LookupVendor w mac); cbn; intros H; injection H as <-;
      split; try reflexivity; discriminate.
  - cbn. intros H. injection H as <-. split; reflexivity.
Qed.

(** Construction keeps the input string and the ports. *)
Lemma constructed_target_frame (t : string) (ports : netUtil.Ports)
      (priv : bool) (tgt : Target) :
  result (construct h w t ports priv) = Ret tgt ->
  InitialTarget tgt = t /\ Ports tgt = ports.
Proof.
  unfold construct. intros Hc.
  set (h0 := mkTarget "" "" None None t Unknown 0 ports []) in *.
  apply result_bind_Ret in Hc. destruct Hc as (h1 & Hres & Hc).
  destruct (Resolve_frame h0 h1 Hres) as (Hi1 & Hp1 & _).
  cbn [h0 InitialTarget Ports] in Hi1, Hp1.
  destruct (IPAddr h1) as [ip|].
  - apply result_bind_Ret in Hc. destruct Hc as (r & Hping & Hc).
    destruct (snd r) as [stats|]; [|discriminate Hc].
    apply result_bind_Ret in Hc. destruct Hc as (h3 & Hq & Hc).
    assert (Hfst : fst r = setRtts h1 (Rtts (fst r))).
    { unfold Ping in Hping. destruct (NewPinger w _ _); cbn in Hping;
        injection Hping as <-; reflexivity. }
    destruct (QueryMac_sets _ h3 Hq) as (Hi3 & Hp3 & _).
    destruct (LookUpVendor_sets h3 tgt Hc) as (Htgt & _).
    rewrite Htgt. cbn [setVendor InitialTarget Ports].
    rewrite Hi3, Hp3, Hfst.
    destruct (PacketsRecv stats >? 0); cbn; auto.
  - cbn in Hc. injection Hc as <-. cbn. auto.
Qed.

(** X8.  Every target that [NewTarget] or [AsyncNewTarget] returns keeps
    the input string and the ports it was made from, has one of the
    three named statuses and one of the three named locations (so that
    neither prints as "N/A"), has a MAC address only if it has an IP
    address and is [Local], and has the vendor "N/A" whenever it has an
    IP address but no MAC address. *)
Theorem constructed_target_invariants (t : string) (ports : netUtil.Ports)
        (privileged : bool) (tgt : Target) :
  result (NewTarget h w t ports privileged) = Ret tgt
  \/ result (AsyncNewTarget h w t ports privileged) = Ret tgt ->
  InitialTarget tgt = t
  /\ Ports tgt = ports
  /\ validStatus (Status tgt)
  /\ validLocation (Location tgt)
  /\ TargetStatus_String (Status tgt) <> "N/A"
  /\ NetworkLocation_String (Location tgt) <> "N/A"
  /\ (MACAddr tgt <> None -> IPAddr tgt <> None /\ Location tgt = Local)
  /\ (IPAddr tgt <> None -> MACAddr tgt = None -> Vendor tgt = "N/A").
Proof.
  intros Hbuilt.
  assert (Hc : result (construct h w t ports privileged) = Ret tgt).
  { destruct Hbuilt as [H | H]; [exact H|].
    unfold AsyncNewTarget in H.
    apply result_bind_Ret in H. destruct H as (_ & _ & H).
    apply result_bind_Ret in H. destruct H as (h1 & Hh1 & H).
    cbn in H. injection H as <-. exact Hh1. }
  clear Hbuilt.
  assert (Hnames :
            forall s l, validStatus s -> validLocation l ->
                        TargetStatus_String s <> "N/A"
                        /\ NetworkLocation_String l <> "N/A").
  { intros s l [-> | [-> | ->]] [-> | [-> | ->]]; split; discriminate. }
  unfold construct in Hc.
  set (h0 := mkTarget "" "" None None t Unknown 0 ports []) in *.
  apply result_bind_Ret in Hc. destruct Hc as (h1 & Hres & Hc).
  destruct (Resolve_frame h0 h1 Hres) as (Hi1 & Hp1 & _ & _ & Hm1 & Hs1).
  cbn [h0 InitialTarget Ports MACAddr Status] in Hi1, Hp1, Hm1, Hs1.
  assert (Hv1 : validStatus (Status h1)).
  { unfold validStatus. destruct Hs1 as [-> | ->]; auto. }
  destruct (IPAddr h1) as [ip|] eqn:Hip.
  - apply result_bind_Ret in Hc. destruct Hc as (r & Hping & Hc).
    destruct (snd r) as [stats|]; [|discriminate Hc].
    apply result_bind_Ret in Hc. destruct Hc as (h3 & Hq & Hc).
    assert (Hfst : fst r = setRtts h1 (Rtts (fst r))).
    { unfold Ping in Hping. destruct (NewPinger w _ _); cbn in Hping;
        injection Hping as <-; reflexivity. }
    set (h2 := if PacketsRecv stats >? 0
               then setStatus (fst r) Online else fst r) in *.
    assert (Hh2 : InitialTarget h2 = t /\ Ports h2 = ports
                  /\ IPAddr h2 = Some ip /\ validStatus (Status h2)).
    { unfold h2. rewrite Hfst.
      destruct (PacketsRecv stats >? 0); cbn; repeat split; auto.
      now left. }
    destruct Hh2 as (Hi2 & Hp2 & Hip2 & Hv2).
    destruct (QueryMac_sets h2 h3 Hq) as (Hi3 & Hp3 & Hip3 & Hl3 & Hm3 & Hs3).
    destruct (LookUpVendor_sets h3 tgt Hc) as (Htgt & Hvendor).
    rewrite Htgt. cbn [setVendor InitialTarget Ports Status Location MACAddr
                       IPAddr Vendor].
    assert (Hv3 : validStatus (Status h3)).
    { destruct Hs3 as [-> | ->]; [exact Hv2 | now left]. }
    destruct (Hnames _ _ Hv3 Hl3) as [Hn1 Hn2].
    repeat split; try congruence; auto.
  - cbn in Hc. injection Hc as <-.
    cbn [setLocation setMACAddr InitialTarget Ports Status Location MACAddr
         IPAddr Vendor].
    assert (Hl : validLocation UnknownLoc) by (right; right; reflexivity).
    destruct (Hnames _ _ Hv1 Hl) as [Hn1 Hn2].
    repeat split; auto; congruence.
Qed.

End ConstructionOutcome.

Lemma constructed_target_invariants_witness :
  let tgt := pScan.mkTarget "N/A" "Acme" (Some [192; 168; 1; 7])
               (Some [170; 187; 204; 0; 17; 34]) "192.168.1.7"
               pScan.Online pScan.Local [netUtil.NewPort 80 "tcp"]
               [1000; 3000; 2000] in
  pScan.result (pScan.NewTarget pScan.specHelper pScan.lanWorld "192.168.1.7"
                  [netUtil.NewPort 80 "tcp"] false) = Ret tgt
  /\ pScan.InitialTarget tgt = "192.168.1.7"
  /\ pScan.validLocation (pScan.Location tgt).
Proof.
  cbv zeta. split; [reflexivity|].
  destruct (constructed_target_invariants pScan.specHelper pScan.lanWorld
              "192.168.1.7" [netUtil.NewPort 80 "tcp"] false
              (pScan.mkTarget "N/A" "Acme" (Some [192; 168; 1; 7])
                 (Some [170; 187; 204; 0; 17; 34]) "192.168.1.7"
                 pScan.Online pScan.Local [netUtil.NewPort 80 "tcp"]
                 [1000; 3000; 2000]))
    as (Hi & _ & _ & Hl & _).
  - left. reflexivity.
  - split; [exact Hi | exact Hl].
Defined.

(** ** What [ParseHostString] returns *)

Section ParsedTargets.

Import netUtil pScan.

Local Open Scope list_scope.

Variable h : Helper.
Variable w : World.
Variable sched : Schedule.

Ltac silence :=
  repeat first
    [ apply silent_ret
    | apply silent_lift
    | apply silent_emit; reflexivity
    | apply silent_emits; apply existsb_map_false; reflexivity
    | apply silent_bind; [|intros]
    | match goal with
      | |- silent _ (match ?x with _ => _ end) => destruct x
      end ].



(** A construction unit that completes has acquired weight 4 and
    released weight 3. *)
Lemma AsyncNewTarget_outcome (t : string) (ports : netUtil.Ports)
      (priv : bool) (tgt : Target) :
  result (AsyncNewTarget h w t ports priv) = Ret tgt ->
  result (construct h w t ports priv) = Ret tgt
  /\ held (trace (AsyncNewTarget h w t ports priv)) = 1.
Proof.
  intros H. unfold AsyncNewTarget in *.
  rewrite mbind_emit in *. cbn [result snd trace fst] in *.
  apply result_bind_Ret in H. destruct H as (h1 & Hc & H).
  cbn in H. injection H as <-.
  split; [exact Hc|].
  rewrite (trace_bind_Ret _ _ h1 Hc). cbn [held].
  rewrite held_app, (held_silent _ (construct_no_weight h w t ports priv)).
  reflexivity.
Qed.

Lemma collectTargets_outcome (ports : netUtil.Ports) (priv : bool)
      (ts : list string) :
  forall tgts : Targets,
    result (collectTargets h w ts ports priv) = Ret tgts ->
    map InitialTarget tgts = ts
    /\ (forall t, In t tgts -> Ports t = ports)
    /\ held (trace (collectTargets h w ts ports priv))
       = Z.of_nat (List.length tgts).
Proof.
  induction ts as [|a ts IH]; intros tgts H.
  - cbn in H. injection H as <-. cbn. repeat split. intros t [].
  - cbn [collectTargets] in *.
    pose proof H as H'.
    apply result_bind_Ret in H'. destruct H' as (tgt & Hone & H').
    apply result_bind_Ret in H'. destruct H' as (rest & Hrest & H').
    cbn in H'. injection H' as <-.
    destruct (AsyncNewTarget_outcome a ports priv tgt Hone) as (Hc & Hheld).
    destruct (constructed_target_frame h w a ports priv tgt Hc) as (Hi & Hp).
    destruct (IH rest Hrest) as (Hmap & Hports & Hh).
    split; [cbn; congruence|]. split.
    + intros t [<- | Hin]; [exact Hp | now apply Hports].
    + rewrite (trace_bind_Ret _ _ tgt Hone), held_app, Hheld.
      rewrite (trace_bind_Ret _ _ rest Hrest), held_app, Hh.
      cbn [ret trace fst held List.length]. lia.
Qed.


End ParsedTargets.


(** ** Dash patterns and plain tokens *)

Section HostPatterns.

Import netUtil pScan.

Local Open Scope list_scope.

Lemma octetsToTargets_length (a b c d : list Z) :
  List.length (octetsToTargets [a; b; c; d])
  = (List.length a * (List.length b * (List.length c * List.length d)))%nat.
Proof.
  unfold octetsToTargets. cbn [nth].
  apply flat_map_constant_length. intros o0 _.
  apply flat_map_constant_length. intros o1 _.
  apply flat_map_constant_length. intros o2 _.
  apply length_map.
Qed.

(** X11.  [octetsToTargets] lists the Cartesian product of the four
    octet lists: one address for every choice of one value per octet,
    [|a|*|b|*|c|*|d|] addresses in all, hence none as soon as one octet
    has no value; the addresses listed are exactly the dotted texts of
    such choices. *)
Theorem octetsToTargets_product (a b c d : list Z) :
  List.length (octetsToTargets [a; b; c; d])
  = (List.length a * List.length b * List.length c * List.length d)%nat
  /\ (forall s : string,
        In s (octetsToTargets [a; b; c; d]) <->
        exists o0 o1 o2 o3,
          In o0 a /\ In o1 b /\ In o2 c /\ In o3 d
          /\ s = dotted o0 o1 o2 o3)
  /\ (a = [] \/ b = [] \/ c = [] \/ d = [] ->
      octetsToTargets [a; b; c; d] = []).
Proof.
  split; [rewrite octetsToTargets_length; lia|]. split.
  - intros s. unfold octetsToTargets. cbn [nth]. rewrite in_flat_map. split.
    + intros (o0 & H0 & H). apply in_flat_map in H.
      destruct H as (o1 & H1 & H). apply in_flat_map in H.
      destruct H as (o2 & H2 & H). apply in_map_iff in H.
      destruct H as (o3 & <- & H3).
      exists o0, o1, o2, o3. repeat split; assumption.
    + intros (o0 & o1 & o2 & o3 & H0 & H1 & H2 & H3 & ->).
      exists o0. split; [exact H0|]. apply in_flat_map.
      exists o1. split; [exact H1|]. apply in_flat_map.
      exists o2. split; [exact H2|]. apply in_map_iff.
      exists o3. split; [reflexivity | exact H3].
  - intros H. apply length_zero_iff_nil. rewrite octetsToTargets_length.
    destruct H as [-> | [-> | [-> | ->]]]; cbn [List.length]; lia.
Qed.

Lemma fillOctets_cons (h : Helper) (i : nat) (p : string)
      (rest : list string) (octets : list (list Z)) :
  exists vs : list Z,
    (if strings.Contains p "-" then vs = StrRangeToArray h p
     else List.length vs = 1%nat)
    /\ fillOctets h i (p :: rest) octets
       = (octets' <- appendOctet octets i vs ;;
          fillOctets h (S i) rest octets').
Proof.
  cbn [fillOctets]. destruct (strings.Contains p "-").
  - exists (StrRangeToArray h p). split; reflexivity.
  - eexists. split; [|reflexivity]. reflexivity.
Qed.

(** The loop over the parts of a dash pattern, started on four empty
    octets: part [i] gives octet [i] its values, the octets beyond the
    parts stay empty, and a fifth part is an index out of range. *)
Lemma fillOctets_parts (h : Helper) (parts : list string) :
  ((4 < List.length parts)%nat ->
   fillOctets h 0 parts [[]; []; []; []] = Panic)
  /\ ((List.length parts <= 4)%nat ->
      exists octets,
        fillOctets h 0 parts [[]; []; []; []]
        = Ret (octets ++ repeat [] (4 - List.length parts))
        /\ Forall2 (fun p o =>
                      if strings.Contains p "-"
                      then o = StrRangeToArray h p
                      else List.length o = 1%nat) parts octets).
Proof.
  destruct parts as [|p0 parts].
  { split; [cbn; lia|]. intros _. exists []. split; [reflexivity|constructor]. }
  destruct (fillOctets_cons h 0 p0 parts [[]; []; []; []]) as (v0 & H0 & ->).
  cbn [appendOctet nth_error firstn skipn app bind].
  destruct parts as [|p1 parts].
  { split; [cbn; lia|]. intros _. exists [v0].
    split; [reflexivity|]. repeat constructor. exact H0. }
  destruct (fillOctets_cons h 1 p1 parts [v0; []; []; []]) as (v1 & H1 & ->).
  cbn [appendOctet nth_error firstn skipn app bind].
  destruct parts as [|p2 parts].
  { split; [cbn; lia|]. intros _. exists [v0; v1].
    split; [reflexivity|]. repeat constructor; assumption. }
  destruct (fillOctets_cons h 2 p2 parts [v0; v1; []; []]) as (v2 & H2 & ->).
  cbn [appendOctet nth_error firstn skipn app bind].
  destruct parts as [|p3 parts].
  { split; [cbn; lia|]. intros _. exists [v0; v1; v2].
    split; [reflexivity|]. repeat constructor; assumption. }
  destruct (fillOctets_cons h 3 p3 parts [v0; v1; v2; []])
    as (v3 & H3 & ->).
  cbn [appendOctet nth_error firstn skipn app bind].
  destruct parts as [|p4 parts].
  { split; [cbn; lia|]. intros _. exists [v0; v1; v2; v3].
    split; [reflexivity|]. repeat constructor; assumption. }
  split; [|cbn; lia]. intros _.
  destruct (fillOctets_cons h 4 p4 parts [v0; v1; v2; v3]) as (v4 & _ & ->).
  reflexivity.
Qed.

Lemma cutSlash_none (s : string) :
  forall pre : string, hasByte "/" s = false -> cutSlash pre s = None.
Proof.
  induction s as [|c s IH]; intros pre H; [reflexivity|].
  cbn [hasByte cutSlash] in *. apply orb_false_iff in H.
  destruct H as [-> H]. now apply IH.
Qed.

Lemma Contains_none (c : ascii) (s : string) :
  hasByte c s = false -> strings.Contains s (String c "") = false.
Proof.
  unfold strings.Contains. intros H.
  assert (E : index 0 (String c "") s = None); [|now rewrite E].
  induction s as [|b s IH]; [reflexivity|].
  cbn [hasByte] in H. apply orb_false_iff in H. destruct H as [Hb H].
  cbn [index prefix]. apply Ascii.eqb_neq in Hb.
  destruct (ascii_dec c b) as [-> | _]; [congruence|].
  now rewrite (IH H).
Qed.

Lemma hasByte_append (c : ascii) (a b : string) :
  hasByte c (a ++ b)%string = hasByte c a || hasByte c b.
Proof.
  induction a as [|x a IH]; [reflexivity|].
  cbn [append hasByte]. now rewrite IH, orb_assoc.
Qed.

Lemma splitAcc_without (c sep : ascii) (s : string) :
  forall cur : string,
    hasByte c cur = false -> hasByte c s = false ->
    Forall (fun piece => hasByte c piece = false) (strings.splitAcc sep cur s).
Proof.
  induction s as [|b s IH]; intros cur Hcur Hs; cbn [strings.splitAcc].
  - now repeat constructor.
  - cbn [hasByte] in Hs. apply orb_false_iff in Hs. destruct Hs as [Hb Hs].
    destruct (Ascii.eqb b sep).
    + constructor; [exact Hcur|]. now apply IH.
    + apply IH; [|exact Hs].
      rewrite hasByte_append, Hcur. cbn [hasByte]. now rewrite Hb.
Qed.

Lemma splitAcc_nonempty (sep : ascii) (s : string) :
  forall cur : string, strings.splitAcc sep cur s <> [].
Proof.
  induction s as [|b s IH]; intros cur; cbn [strings.splitAcc];
    [discriminate|].
  destruct (Ascii.eqb b sep); [discriminate | apply IH].
Qed.

Lemma plain_token_unit (h : Helper) (fuel : nat) (tok : string) :
  hasByte "/" tok = false -> hasByte "-" tok = false ->
  expandHostArg h fuel tok = ([EvGoAsyncNewTarget tok], Ret [tok]).
Proof.
  intros Hs Hd. unfold expandHostArg, ParseCIDR.
  rewrite (cutSlash_none tok "" Hs), (Contains_none "-" tok Hd).
  now destruct (ValidateIPOrRange h tok).
Qed.

Lemma plain_tokens_units (h : Helper) (fuel : nat) (hosts : list string) :
  Forall (fun tok => hasByte "/" tok = false) hosts ->
  Forall (fun tok => hasByte "-" tok = false) hosts ->
  expandHosts h fuel hosts = (map EvGoAsyncNewTarget hosts, Ret hosts).
Proof.
  induction hosts as [|tok hosts IH]; intros Hs Hd; [reflexivity|].
  inversion Hs as [|? ? Hs1 Hs2]; inversion Hd as [|? ? Hd1 Hd2]; subst.
  cbn [expandHosts]. rewrite (plain_token_unit h fuel tok Hs1 Hd1).
  rewrite (IH Hs2 Hd2). unfold mbind, ret. cbn [fst snd app map].
  now rewrite app_nil_r.
Qed.

(** X12.  A token without ['/'] that the validator accepts and that has
    a ['-'] in it is taken as a dash pattern and split at its dots, and the
    loop over the parts writes part [i] to octet [i] of four: it is the
    validator alone that keeps the parts to four.  With four parts a
    unit is started for every combination of the values of the parts, a
    part with a dash standing for what [StrRangeToArray] returns for it
    and any other part for one value.  With fewer than four parts an
    octet stays empty and no unit at all is started.  With more than
    four parts the fifth is an index out of range: the run panics, and
    no unit has been started for the token. *)
Theorem dash_pattern_parts (h : Helper) (fuel : nat) (tok : string) :
  hasByte "/" tok = false ->
  ValidateIPOrRange h tok = true ->
  strings.Contains tok "-" = true ->
  let parts := strings.Split tok "."%char in
  (List.length parts = 4%nat ->
   exists octets,
     Forall2 (fun p o =>
                if strings.Contains p "-"
                then o = StrRangeToArray h p
                else List.length o = 1%nat) parts octets
     /\ expandHostArg h fuel tok
        = (map EvGoAsyncNewTarget (octetsToTargets octets),
           Ret (octetsToTargets octets)))
  /\ ((List.length parts < 4)%nat -> expandHostArg h fuel tok = ([], Ret []))
  /\ ((4 < List.length parts)%nat -> expandHostArg h fuel tok = ([], Panic)).
Proof.
  intros Hslash Hvalid Hdash parts.
  unfold expandHostArg, ParseCIDR.
  rewrite (cutSlash_none tok "" Hslash), Hvalid, Hdash. fold parts.
  destruct (fillOctets_parts h parts) as [Hmany Hfew].
  split; [|split].
  - intros Hlen. destruct Hfew as (octets & -> & Hall); [lia|].
    exists octets. split; [exact Hall|].
    rewrite Hlen. cbn [Nat.sub repeat]. rewrite app_nil_r.
    unfold spawnAll, mbind, lift, emits, ret. cbn [fst snd app].
    now rewrite app_nil_r.
  - intros Hlen. destruct Hfew as (octets & -> & Hall); [lia|].
    pose proof (Forall2_length Hall) as Hl.
    assert (E : octetsToTargets (octets ++ repeat [] (4 - List.length parts))
                = []).
    { destruct octets as [|a [|b [|c [|d rest]]]]; cbn [List.length] in Hl;
        rewrite Hl; cbn [Nat.sub repeat app]; try lia;
        apply length_zero_iff_nil; rewrite octetsToTargets_length;
        cbn [List.length]; lia. }
    unfold spawnAll, mbind, lift, emits, ret. cbn [fst snd app].
    rewrite E. reflexivity.
  - intros Hlen. rewrite (Hmany Hlen). reflexivity.
Qed.

(** X13.  A host string with no ['/'] and no ['-'] in it is not
    expanded: whatever the validator answers, exactly one unit is
    started for every piece between commas, in the order of the pieces
    and for the piece as written, an empty piece included (so the empty
    host string starts one unit, for the empty name).  When
    [ParseHostString] returns, the input strings of its targets are
    these pieces, in the order the units complete. *)
Theorem plain_host_string (h : Helper) (w : World) (sched : Schedule)
        (fuel : nat) (hostArgs : string) (ports : netUtil.Ports)
        (privileged : bool) :
  hasByte "/" hostArgs = false ->
  hasByte "-" hostArgs = false ->
  let hosts := strings.Split hostArgs ","%char in
  hosts <> []
  /\ expandHosts h fuel hosts = (map EvGoAsyncNewTarget hosts, Ret hosts)
  /\ (fair sched ->
      forall tgts : Targets,
        result (ParseHostString h w sched fuel hostArgs ports privileged)
        = Ret tgts ->
        Permutation (map InitialTarget tgts) hosts).
Proof.
  intros Hs Hd hosts.
  assert (Hexp : expandHosts h fuel hosts
                 = (map EvGoAsyncNewTarget hosts, Ret hosts)).
  { apply plain_tokens_units; apply splitAcc_without;
      solve [reflexivity | assumption]. }
  split; [apply splitAcc_nonempty|]. split; [exact Hexp|].
  intros Hfair tgts H. unfold ParseHostString in H.
  rewrite mbind_emit in H. cbn [result snd] in H.
  apply result_bind_Ret in H. destruct H as (started & Hst & H).
  fold hosts in Hst. rewrite Hexp in Hst. cbn in Hst. injection Hst as <-.
  destruct (collectTargets_outcome h w ports privileged _ tgts H)
    as (-> & _). apply Hfair.
Qed.

End HostPatterns.

Lemma dash_pattern_parts_witness :
  pScan.hasByte "/" "10.0.1-3.5" = false
  /\ pScan.ValidateIPOrRange pScan.specHelper "10.0.1-3.5" = true
  /\ strings.Contains "10.0.1-3.5" "-" = true
  /\ exists octets,
       Forall2 (fun p o =>
                  if strings.Contains p "-"
                  then o = pScan.StrRangeToArray pScan.specHelper p
                  else List.length o = 1%nat)
               (strings.Split "10.0.1-3.5" "."%char) octets
       /\ pScan.expandHostArg pScan.specHelper 0 "10.0.1-3.5"
          = (map pScan.EvGoAsyncNewTarget (pScan.octetsToTargets octets),
             Ret (pScan.octetsToTargets octets)).
Proof.
  split; [reflexivity|]. split; [reflexivity|]. split; [reflexivity|].
  exact (proj1 (dash_pattern_parts pScan.specHelper 0 "10.0.1-3.5"
                  eq_refl eq_refl eq_refl) eq_refl).
Defined.

Lemma plain_host_string_witness :
  let hostArgs := "192.168.1.7,,nohost.invalid" in
  pScan.hasByte "/" hostArgs = false
  /\ pScan.hasByte "-" hostArgs = false
  /\ pScan.result
       (pScan.expandHosts pScan.specHelper 0
          (strings.Split hostArgs ","%char))
     = Ret ["192.168.1.7"; ""; "nohost.invalid"].
Proof.
  cbv zeta. split; [reflexivity|]. split; [reflexivity|].
  destruct (plain_host_string pScan.specHelper pScan.lanWorld pScan.fifo 0
              "192.168.1.7,,nohost.invalid" [] false eq_refl eq_refl)
    as (_ & He & _).
  rewrite He. reflexivity.
Defined.

(** ** Prefixes, for any increment that steps to the next address *)

Section PrefixUnits.

Import pScan.

Local Open Scope list_scope.

Variable h : Helper.
Hypothesis IncIp_next :
  forall a : Z, 0 <= a < 2 ^ 32 -> IncIp h a = (a + 1) mod 2 ^ 32.

Lemma cidrLoop_units (ip0 n : Z) (extra m : nat) :
  0 <= ip0 < 2 ^ 32 -> 1 <= n <= 32 ->
  forall j : Z,
    0 <= j -> j + Z.of_nat m = 2 ^ (32 - n) ->
    cidrLoop h (S m + extra)
             (mkIPNet (Mask ip0 (CIDRMask n)) (CIDRMask n))
             ((Mask ip0 (CIDRMask n) + j) mod 2 ^ 32)
    = (map (fun a => EvGoAsyncNewTarget (IPv4_String a))
           (addressesFrom (Mask ip0 (CIDRMask n) + j) m),
       Ret (addressesFrom (Mask ip0 (CIDRMask n) + j) m)).
Proof.
  intros Hip Hn. assert (Hn' : 0 <= n <= 32) by lia.
  pose proof (base_range ip0 n Hip Hn') as [Hb0 Hb1].
  set (base := Mask ip0 (CIDRMask n)) in *.
  induction m as [|m IH]; intros j Hj Hsum.
  - replace j with (2 ^ (32 - n)) by lia. cbn [Nat.add cidrLoop].
    unfold base. rewrite (after_block ip0 n Hip Hn') by lia. reflexivity.
  - rewrite Z.mod_small by lia.
    change (S (S m) + extra)%nat with (S (S m + extra)).
    cbn [cidrLoop]. unfold base at 1.
    rewrite (inside_block ip0 n Hip Hn') by lia. fold base.
    rewrite IncIp_next by lia.
    replace (base + j + 1) with (base + (j + 1)) by lia.
    rewrite (IH (j + 1)) by lia.
    rewrite addressesFrom_S.
    replace (base + j + 1) with (base + (j + 1)) by lia.
    unfold mbind, emit, ret. cbn [fst snd app map].
    now rewrite app_nil_r.
Qed.

Lemma block_members (ip0 n a : Z) :
  0 <= ip0 < 2 ^ 32 -> 0 <= n <= 32 ->
  (Mask ip0 (CIDRMask n) <= a < Mask ip0 (CIDRMask n) + 2 ^ (32 - n)) <->
  (0 <= a < 2 ^ 32
   /\ Contains (mkIPNet (Mask ip0 (CIDRMask n)) (CIDRMask n)) a = true).
Proof.
  intros Hip Hn.
  pose proof (base_range ip0 n Hip Hn) as [Hb0 Hb1].
  pose proof (size_pos ip0 n Hn) as Hsize.
  split.
  - intros Ha. split; [lia|].
    replace a with (Mask ip0 (CIDRMask n) + (a - Mask ip0 (CIDRMask n)))
      by lia.
    apply (inside_block ip0 n Hip Hn). lia.
  - intros [Ha Hc]. rewrite (Contains_block ip0 n Hip Hn a Ha) in Hc.
    apply Z.eqb_eq in Hc. rewrite (base_eq ip0 n Hip Hn), <- Hc.
    pose proof (Z.div_mod a (2 ^ (32 - n)) ltac:(lia)) as Hdm.
    pose proof (Z.mod_pos_bound a (2 ^ (32 - n)) Hsize). lia.
Qed.

(** X14.  Whenever [IncIp] steps an address to the next 32-bit value,
    a token [a.b.c.d/n] with [n] from 1 to 32 has its loop end, given a
    budget above the size of the block, after one unit was started for
    each address of the block: for the [2^(32-n)] addresses from the
    masked network address upwards, in ascending order, which are
    exactly the addresses the block contains. *)
Theorem cidr_token_units (s : string) (ip : Z) (ipNet : IPNet) :
  ParseCIDR s = Some (ip, ipNet) ->
  exists n,
    0 <= n <= 32
    /\ netMask ipNet = CIDRMask n
    /\ netIP ipNet = Mask ip (CIDRMask n)
    /\ (1 <= n ->
        let visited := addressesFrom (netIP ipNet)
                                     (Z.to_nat (2 ^ (32 - n))) in
        (forall a, In a visited <->
                   0 <= a < 2 ^ 32 /\ Contains ipNet a = true)
        /\ forall fuel : nat,
             2 ^ (32 - n) < Z.of_nat fuel ->
             expandHostArg h fuel s
             = (map EvGoAsyncNewTarget (map IPv4_String visited),
                Ret (map IPv4_String visited))).
Proof.
  intros Hparse.
  destruct (ParseCIDR_spec s ip ipNet Hparse) as (n & Hn & Hip & ->).
  exists n. split; [exact Hn|]. split; [reflexivity|].
  split; [reflexivity|]. intros Hn1. cbn [netIP].
  pose proof (size_pos ip n Hn) as Hsize.
  pose proof (base_range ip n Hip Hn) as [Hb0 Hb1].
  split.
  - intros a. rewrite addressesFrom_In, <- (block_members ip n a Hip Hn).
    rewrite Z2Nat.id by lia. reflexivity.
  - intros fuel Hfuel. unfold expandHostArg. rewrite Hparse. cbn [netMask].
    set (m := Z.to_nat (2 ^ (32 - n))).
    replace fuel with (S m + (fuel - S m))%nat by lia.
    replace (Mask ip (CIDRMask n))
      with ((Mask ip (CIDRMask n) + 0) mod 2 ^ 32) at 2
      by (rewrite Z.add_0_r; apply Z.mod_small; lia).
    rewrite (cidrLoop_units ip n (fuel - S m) m Hip ltac:(lia) 0)
      by lia.
    rewrite Z.add_0_r. unfold mbind, ret. cbn [fst snd].
    now rewrite app_nil_r, map_map.
Qed.

End PrefixUnits.

Lemma cidr_token_units_witness :
  (forall a : Z, 0 <= a < 2 ^ 32 ->
                 pScan.IncIp pScan.specHelper a = (a + 1) mod 2 ^ 32)
  /\ pScan.ParseCIDR "192.168.1.77/30"
     = Some (3232235853, pScan.mkIPNet 3232235852 4294967292)
  /\ (exists n, 0 <= n <= 32 /\ pScan.CIDRMask n = 4294967292)
  /\ pScan.result (pScan.expandHostArg pScan.specHelper 5 "192.168.1.77/30")
     = Ret ["192.168.1.76"; "192.168.1.77"; "192.168.1.78"; "192.168.1.79"].
Proof.
  assert (Hinc : forall a : Z, 0 <= a < 2 ^ 32 ->
                   pScan.IncIp pScan.specHelper a = (a + 1) mod 2 ^ 32)
    by (intros a _; reflexivity).
  split; [exact Hinc|]. split; [reflexivity|].
  destruct (cidr_token_units pScan.specHelper Hinc "192.168.1.77/30"
              3232235853 (pScan.mkIPNet 3232235852 4294967292) eq_refl)
    as (n & Hn & Hmask & _).
  split; [|reflexivity].
  exists n. split; [exact Hn | symmetry; exact Hmask].
Defined.
